(** * HillPulse: the ingestion relay of [server.js]

    A shallow embedding of the two variants of [server.js] (the baseline
    relay with duplicate suppression and e-mail, and the hardened relay with
    the shared secret and the Gemini retry loop), followed by the properties
    of the deduplicator, the text resolver, the summarizer and the
    [POST /ingest] handlers.

    Conventions of the embedding:
    - JavaScript values that flow through the handlers are the JSON
      primitives and [undefined] ([JsVal]); numbers are the integer-valued
      ones, strings are strings of one-byte code units;
    - the process state is the [SEEN] map, the number of [Date.now()] calls
      made so far and the list of outbound calls and timers ([State]);
      console output is not recorded;
    - [async] functions are computations in the monad [M] (state plus
      exceptions); what the remote services answer during one request is a
      record [Remote], what [process.env] holds is a record [ProcessEnv]. *)

From Stdlib Require Import ZArith List String Ascii Bool Arith Lia.
From Stdlib Require Import Numbers.DecimalString.
From Equations Require Import Equations.
Import ListNotations.

Set Implicit Arguments.
Open Scope Z_scope.

(* ===================================================================== *)
(** ** JavaScript values *)
(* ===================================================================== *)

Inductive JsVal : Type :=
| JUndefined
| JNull
| JBool (b : bool)
| JNum (n : Z)
| JStr (s : string).

(** ToBoolean. *)
Definition truthy (v : JsVal) : bool :=
  match v with
  | JUndefined | JNull => false
  | JBool b => b
  | JNum n => negb (n =? 0)
  | JStr EmptyString => false
  | JStr (String _ _) => true
  end.

(** [a || b]. *)
Definition js_or (a b : JsVal) : JsVal := if truthy a then a else b.

Definition JsVal_eq_dec (a b : JsVal) : {a = b} + {a <> b}.
Proof.
  decide equality.
  - apply Bool.bool_dec.
  - apply Z.eq_dec.
  - apply string_dec.
Defined.

(** SameValueZero on primitives, the key equality of [Map]. *)
Definition sameValueZero (a b : JsVal) : bool :=
  if JsVal_eq_dec a b then true else false.

Definition Z_to_string (z : Z) : string := NilZero.string_of_int (Z.to_int z).

(** ToString, as template literals and string concatenation apply it. *)
Definition to_string (v : JsVal) : string :=
  match v with
  | JUndefined => "undefined"
  | JNull => "null"
  | JBool true => "true"
  | JBool false => "false"
  | JNum n => Z_to_string n
  | JStr s => s
  end.

(** Values of [process.env] and of request headers: a string or absent. *)
Definition present (v : option string) : bool :=
  match v with
  | Some (String _ _) => true
  | _ => false
  end.

Definition or_else (v : option string) (d : string) : string :=
  if present v then match v with Some s => s | None => d end else d.

(* ===================================================================== *)
(** ** Strings: [trim], [match] and [replace] with the regular expressions
       of the source *)
(* ===================================================================== *)

Module Str.

Definition chars := list ascii.

Definition of_string : string -> chars := list_ascii_of_string.
Definition to_string : chars -> string := string_of_list_ascii.

Definition is_char (a b : ascii) : bool := Ascii.eqb a b.

(** WhiteSpace and LineTerminator code units below 256. *)
Definition is_space (c : ascii) : bool :=
  let n := nat_of_ascii c in
  ((9 <=? n) && (n <=? 13) || (n =? 32) || (n =? 160))%nat.

(** LineTerminator, which [.] does not match. *)
Definition is_line_terminator (c : ascii) : bool :=
  let n := nat_of_ascii c in ((n =? 10) || (n =? 13))%nat.

Fixpoint drop_spaces (l : chars) : chars :=
  match l with
  | c :: r => if is_space c then drop_spaces r else l
  | [] => []
  end.

(** [String.prototype.trim]. *)
Definition trim (s : string) : string :=
  to_string (rev (drop_spaces (rev (drop_spaces (of_string s))))).

Fixpoint starts_with (p l : chars) : bool :=
  match p, l with
  | [], _ => true
  | a :: p', b :: l' => is_char a b && starts_with p' l'
  | _ :: _, [] => false
  end.

(** The longest prefix of characters other than [>]: what the greedy
    [[^>]*] and [[^>]+] consume.  No shorter prefix lets the [>] that follows
    them in both expressions match, so backtracking adds no match. *)
Fixpoint not_gt_run (l : chars) : chars :=
  match l with
  | c :: r => if is_char c ">" then [] else c :: not_gt_run r
  | [] => []
  end.

(** A pattern tried at the head of the input: the length of its match. *)
Definition matcher := chars -> option nat.

(** [/<[^>]+>/] at the head of the input. *)
Definition tag : matcher := fun l =>
  match l with
  | "<"%char :: r =>
      let run := not_gt_run r in
      match run, skipn (List.length run) r with
      | _ :: _, ">"%char :: _ => Some (2 + List.length run)%nat
      | _, _ => None
      end
  | _ => None
  end.

(** A literal pattern such as [/&amp;/] at the head of the input. *)
Definition literal (p : string) : matcher := fun l =>
  if starts_with (of_string p) l then Some (String.length p) else None.

(** [s.replace(/re/g, by)]: matches are taken leftmost first and do not
    overlap; the search resumes after each match.  None of the patterns of
    the source matches the empty string. *)
Equations? replace_chars (re : matcher) (by_ : chars) (l : chars) : chars
  by wf (List.length l) lt :=
replace_chars re by_ [] := [];
replace_chars re by_ (c :: r) with re (c :: r) => {
  | Some (S n) := by_ ++ replace_chars re by_ (skipn n r);
  | _ := c :: replace_chars re by_ r }.
Proof.
  all: simpl; try lia.
  pose proof (length_skipn n r). lia.
Qed.

Definition replace (re : matcher) (by_ : string) (s : string) : string :=
  to_string (replace_chars re (of_string by_) (of_string s)).

(** The lazy [(.*?)] followed by [<\/p>]: the text up to the first [</p>],
    provided no line terminator comes before it. *)
Fixpoint lazy_until_close (l : chars) : option chars :=
  if starts_with (of_string "</p>") l then Some []
  else match l with
       | [] => None
       | c :: r =>
           if is_line_terminator c then None
           else option_map (cons c) (lazy_until_close r)
       end.

(** [/<p[^>]*>(.*?)<\/p>/] at the head of the input: capture group 1. *)
Definition paragraph_here (l : chars) : option chars :=
  match l with
  | "<"%char :: "p"%char :: r =>
      match skipn (List.length (not_gt_run r)) r with
      | ">"%char :: body => lazy_until_close body
      | _ => None
      end
  | _ => None
  end.

Fixpoint paragraph_chars (l : chars) : option chars :=
  match paragraph_here l with
  | Some g => Some g
  | None => match l with
            | [] => None
            | _ :: r => paragraph_chars r
            end
  end.

(** [html.match(/<p[^>]*>(.*?)<\/p>/)], reduced to [match[1]]. *)
Definition match_paragraph (html : string) : option string :=
  option_map to_string (paragraph_chars (of_string html)).

End Str.


(* ===================================================================== *)
(** ** Process state, exceptions and the monad of [async] functions *)
(* ===================================================================== *)

Inductive Exn : Type :=
| Error (msg : string)
| TypeError (msg : string).

(** [e.message]. *)
Definition message (e : Exn) : string :=
  match e with
  | Error m | TypeError m => m
  end.

Inductive Outcome (A : Type) : Type :=
| Returned (a : A)
| Threw (e : Exn).
Arguments Threw {A} e.

(** An HTTP response as the source reads it: [res.status], [res.text()] and
    [res.json()].  [Parsed] keeps from the parsed body the one property the
    caller reads; [ParsedNull] is the body [null], on which a property read
    throws. *)
Inductive Parsed : Type :=
| ParsedNull
| ParsedWith (property : JsVal).

Record HttpResponse : Type := {
  status : Z;
  body_text : Outcome string;
  body_json : Outcome Parsed
}.

(** [res.ok]. *)
Definition ok (r : HttpResponse) : bool :=
  (200 <=? status r) && (status r <=? 299).

(** What the remote services answer during one request.  [gemini n] is the
    answer to the fetch made while [attempt] is [n]. *)
Record Remote : Type := {
  oembed : Outcome HttpResponse;
  syndication : Outcome HttpResponse;
  gemini : nat -> Outcome HttpResponse;
  pushover : Outcome HttpResponse;
  sendMail : Outcome unit
}.

Record ProcessEnv : Type := {
  GEMINI_API_KEY : option string;
  INGEST_SECRET_ : option string;
  PUSHOVER_API_TOKEN : option string;
  PUSHOVER_USER_KEY : option string;
  SMTP_HOST : option string;
  SMTP_USER : option string;
  SMTP_PASS : option string;
  EMAIL_TO : option string;
  EMAIL_FROM : option string
}.

(** Outbound calls and timers, with the arguments the handlers give them. *)
Inductive Event : Type :=
| FetchOEmbed (url : JsVal)
| FetchSyndication (url : JsVal)
| FetchGemini (text author url : JsVal)
| SetTimeout (ms : Z)
| FetchPushover (form : list (string * string))
| SendMail (from to subject text : string).

Record State : Type := {
  SEEN : list (JsVal * Z);      (* the Map, in insertion order *)
  reads : nat;                  (* calls of Date.now() made so far *)
  calls : list Event
}.

Definition M (A : Type) : Type := State -> Outcome A * State.

Definition ret {A} (a : A) : M A := fun s => (Returned a, s).

Definition throw {A} (e : Exn) : M A := fun s => (Threw e, s).

Definition bind {A B} (m : M A) (k : A -> M B) : M B := fun s =>
  match m s with
  | (Returned a, s') => k a s'
  | (Threw e, s') => (Threw e, s')
  end.

(** [try { m } catch (e) { h e }]. *)
Definition try_catch {A} (m : M A) (h : Exn -> M A) : M A := fun s =>
  match m s with
  | (Threw e, s') => h e s'
  | r => r
  end.

(** [await p] for a promise whose outcome is decided outside. *)
Definition await {A} (p : Outcome A) : M A := fun s => (p, s).

Definition call (ev : Event) : M unit := fun s =>
  (Returned tt, {| SEEN := SEEN s; reads := reads s; calls := calls s ++ [ev] |}).

Definition get_SEEN : M (list (JsVal * Z)) := fun s => (Returned (SEEN s), s).

Definition put_SEEN (m : list (JsVal * Z)) : M unit := fun s =>
  (Returned tt, {| SEEN := m; reads := reads s; calls := calls s |}).

Declare Scope js_scope.
Delimit Scope js_scope with js.
Notation "x <- m ;; k" := (bind m (fun x => k))
  (at level 61, m at next level, right associativity) : js_scope.
Notation "m ;; k" := (bind m (fun _ => k))
  (at level 61, right associativity) : js_scope.
Open Scope js_scope.

(** [res.json()] followed by the property read [data.p]: reading a property
    of [null] throws. *)
Definition json_property (r : HttpResponse) (what : string) : M JsVal :=
  data <- await (body_json r) ;;
  match data with
  | ParsedNull =>
      throw (TypeError ("Cannot read properties of null (reading '" ++ what ++ "')"))
  | ParsedWith v => ret v
  end.

(** [res.json()] followed by an optional chain [data?.a?.b]: on [null] the
    chain is [undefined]. *)
Definition json_optional (r : HttpResponse) : M JsVal :=
  data <- await (body_json r) ;;
  match data with
  | ParsedNull => ret JUndefined
  | ParsedWith v => ret v
  end.

(** [res.text().catch(() => '')]. *)
Definition text_or_empty (r : HttpResponse) : string :=
  match body_text r with
  | Returned t => t
  | Threw _ => EmptyString
  end.

(** [v.trim()]: only strings have the method. *)
Definition trim_method (v : JsVal) (name : string) : M string :=
  match v with
  | JStr s => ret (Str.trim s)
  | _ => throw (TypeError (name ++ ".trim is not a function"))
  end.

(* ===================================================================== *)
(** ** The deduplicator (baseline variant) *)
(* ===================================================================== *)

Definition TTL_MS : Z := 24 * 60 * 60 * 1000.

(** [Map.prototype.get], [set] and [delete]; [set] keeps the position of a
    key that is already there. *)
Fixpoint Map_get (k : JsVal) (m : list (JsVal * Z)) : option Z :=
  match m with
  | [] => None
  | (k', v) :: r => if sameValueZero k k' then Some v else Map_get k r
  end.

Fixpoint Map_set (k : JsVal) (v : Z) (m : list (JsVal * Z)) : list (JsVal * Z) :=
  match m with
  | [] => [(k, v)]
  | (k', v') :: r =>
      if sameValueZero k k' then (k', v) :: r else (k', v') :: Map_set k v r
  end.

Fixpoint Map_delete (k : JsVal) (m : list (JsVal * Z)) : list (JsVal * Z) :=
  match m with
  | [] => []
  | (k', v') :: r =>
      if sameValueZero k k' then r else (k', v') :: Map_delete k r
  end.

Section Clock.

(** [Date_now_at n] is what the [n]-th call of [Date.now()] in the life of
    the process returns. *)
Variable Date_now_at : nat -> Z.

Definition Date_now : M Z := fun s =>
  (Returned (Date_now_at (reads s)),
   {| SEEN := SEEN s; reads := S (reads s); calls := calls s |}).

(** The [for ... of SEEN] loop of [markSeen].  The loop deletes no entry
    other than the one it is visiting, so it visits the entries the map had
    when the loop began. *)
Fixpoint prune (entries : list (JsVal * Z)) : M unit :=
  match entries with
  | [] => ret tt
  | (k, t) :: rest =>
      now <- Date_now ;;
      (if now - t >? TTL_MS
       then m <- get_SEEN ;; put_SEEN (Map_delete k m)
       else ret tt) ;;
      prune rest
  end.

Definition markSeen (id : JsVal) : M unit :=
  now <- Date_now ;;
  m <- get_SEEN ;;
  put_SEEN (Map_set id now m) ;;
  entries <- get_SEEN ;;
  prune entries.

(** [t && (Date.now() - t) < TTL_MS]: the clock is read only when [t] is
    truthy, and the value returned is [t] itself when it is not. *)
Definition isSeen (id : JsVal) : M JsVal :=
  m <- get_SEEN ;;
  match Map_get id m with
  | None => ret JUndefined
  | Some t =>
      if truthy (JNum t)
      then now <- Date_now ;; ret (JBool (now - t <? TTL_MS))
      else ret (JNum t)
  end.

End Clock.

(* ===================================================================== *)
(** ** The text resolver (the same function in both variants) *)
(* ===================================================================== *)

(** The chain of [replace] calls applied to [match[1]]. *)
Definition decode_fragment (fragment : string) : string :=
  let quot := String (ascii_of_nat 34) EmptyString in
  let s1 := Str.replace Str.tag EmptyString fragment in
  let s2 := Str.replace (Str.literal "&amp;") "&" s1 in
  let s3 := Str.replace (Str.literal "&lt;") "<" s2 in
  let s4 := Str.replace (Str.literal "&gt;") ">" s3 in
  let s5 := Str.replace (Str.literal "&quot;") quot s4 in
  Str.replace (Str.literal "&#39;") "'" s5.

(** [html.match(...)]: only strings have the method ([html] is a truthy
    value or the empty string here). *)
Definition html_match (html : JsVal) : M (option string) :=
  match html with
  | JStr h => ret (Str.match_paragraph h)
  | _ => throw (TypeError "html.match is not a function")
  end.

(** The body of the [try] block; [Some v] is [return v], [None] is falling
    out of the block. *)
Definition fetchTweetText_try (R : Remote) (url : JsVal) : M (option JsVal) :=
  call (FetchOEmbed url) ;;
  r1 <- await (oembed R) ;;
  early <- (if ok r1
            then h <- json_property r1 "html" ;;
                 let html := js_or h (JStr EmptyString) in
                 m <- html_match html ;;
                 match m with
                 | Some fragment => ret (Some (JStr (decode_fragment fragment)))
                 | None => ret None
                 end
            else ret None) ;;
  match early with
  | Some v => ret (Some v)
  | None =>
      call (FetchSyndication url) ;;
      r2 <- await (syndication R) ;;
      if ok r2
      then t <- json_property r2 "text" ;;
           if truthy t then ret (Some t) else ret None
      else ret None
  end.

Definition fetchTweetText (R : Remote) (url : JsVal) : M JsVal :=
  if negb (truthy url) then ret (JStr EmptyString)
  else
    returned <- try_catch (fetchTweetText_try R url) (fun err => ret None) ;;
    match returned with
    | Some v => ret v
    | None => ret (JStr EmptyString)
    end.

(* ===================================================================== *)
(** ** Requests and responses of [POST /ingest] *)
(* ===================================================================== *)

Module Tweet.
Record t : Type := {
  tweet_id : JsVal;
  id : JsVal;
  url : JsVal;
  author : JsVal;
  text : JsVal
}.
(** The object literal [{}]. *)
Definition empty : t :=
  {| tweet_id := JUndefined; id := JUndefined; url := JUndefined;
     author := JUndefined; text := JUndefined |}.
End Tweet.

(** The value under a key of the body: a primitive or an object. *)
Inductive Field : Type :=
| Prim (v : JsVal)
| Obj (o : Tweet.t).

Definition truthy_field (f : Field) : bool :=
  match f with
  | Prim v => truthy v
  | Obj _ => true
  end.

Definition field_or (a b : Field) : Field := if truthy_field a then a else b.

(** [tweet.p], read off a truthy value: primitives have none of the
    properties the handlers read. *)
Definition prop (f : Field) (p : Tweet.t -> JsVal) : JsVal :=
  match f with
  | Obj o => p o
  | Prim _ => JUndefined
  end.

Record Body : Type := {
  data : Field;
  tweet : Field
}.

Definition empty_body : Body :=
  {| data := Prim JUndefined; tweet := Prim JUndefined |}.

Record Request : Type := {
  X_HillPulse_Key : option string;
  Authorization : option string;
  body : option Body
}.

(** [res.status(code).json(payload)]. *)
Record Reply : Type := {
  code : Z;
  payload : list (string * JsVal)
}.

Definition failure (c : Z) (error : string) : Reply :=
  {| code := c; payload := [("ok"%string, JBool false); ("error"%string, JStr error)] |}.

Definition duplicate_reply : Reply :=
  {| code := 200;
     payload := [("ok"%string, JBool true); ("duplicate"%string, JBool true)] |}.

Definition form_title (title : string) : string :=
  to_string (js_or (JStr title) (JStr "HillPulse")).

(* ===================================================================== *)
(** ** The baseline variant *)
(* ===================================================================== *)

Module Baseline.
Section Handlers.

Variable Date_now_at : nat -> Z.
Variable env : ProcessEnv.
Variable R : Remote.

Definition GEMINI_KEY : option string := GEMINI_API_KEY env.

Definition callGeminiSummary (text author url : JsVal) : M string :=
  if negb (present GEMINI_KEY) then throw (Error "Missing GEMINI_API_KEY")
  else
    call (FetchGemini text author url) ;;
    res <- await (gemini R 0) ;;
    if negb (ok res)
    then throw (Error ("Gemini error " ++ Z_to_string (status res) ++ ": "
                         ++ text_or_empty res))
    else
      t <- json_optional res ;;
      let textOut := js_or t (JStr EmptyString) in
      trim_method textOut "textOut".

Definition sendPushover (title message : string) : M bool :=
  let token := PUSHOVER_API_TOKEN env in
  let user := PUSHOVER_USER_KEY env in
  if negb (present token) || negb (present user) then ret false
  else
    call (FetchPushover [("token", or_else token EmptyString);
                         ("user", or_else user EmptyString);
                         ("title", form_title title);
                         ("message", message)]%string) ;;
    r <- await (pushover R) ;;
    ret (ok r).

(** The options given to [createTransport] (host, port, credentials) are
    not recorded; the message handed to [sendMail] is. *)
Definition sendEmail (subject text : string) : M bool :=
  let host := SMTP_HOST env in
  let user := SMTP_USER env in
  let pass := SMTP_PASS env in
  let to := EMAIL_TO env in
  let from := or_else (EMAIL_FROM env) (or_else user EmptyString) in
  if negb (present host) || negb (present user) || negb (present pass)
     || negb (present to)
  then ret false
  else
    call (SendMail from (or_else to EmptyString) subject text) ;;
    await (sendMail R) ;;
    ret true.

Definition ingest (req : Request) : M Reply :=
  try_catch
    (let body := match body req with Some b => b | None => empty_body end in
     let tweet := field_or (field_or (data body) (tweet body)) (Obj Tweet.empty) in
     let tweetId :=
       js_or (js_or (js_or (prop tweet Tweet.tweet_id) (prop tweet Tweet.id))
                    (prop tweet Tweet.url))
             (JStr "unknown") in
     let url := js_or (prop tweet Tweet.url) (JStr EmptyString) in
     let author := js_or (prop tweet Tweet.author) (JStr EmptyString) in
     let text := js_or (prop tweet Tweet.text) (JStr EmptyString) in
     text <- (if negb (truthy text) && truthy url
              then fetchTweetText R url else ret text) ;;
     if negb (truthy text)
     then ret (failure 400 "Could not retrieve tweet text")
     else
       seen <- isSeen Date_now_at tweetId ;;
       if truthy seen then ret duplicate_reply
       else
         markSeen Date_now_at tweetId ;;
         summary <- callGeminiSummary text author url ;;
         pushed <- sendPushover "HillPulse" summary ;;
         emailed <- sendEmail ("HillPulse: @" ++ to_string author) summary ;;
         ret {| code := 200;
                payload := [("ok", JBool true); ("duplicate", JBool false);
                            ("summary", JStr summary); ("pushed", JBool pushed);
                            ("emailed", JBool emailed)]%string |})
    (fun e => ret (failure 500 (message e))).

End Handlers.
End Baseline.

(* ===================================================================== *)
(** ** The hardened variant *)
(* ===================================================================== *)

Module Hardened.

Definition MAX_RETRIES : nat := 3.

Section Handlers.

Variable env : ProcessEnv.
Variable R : Remote.

Definition GEMINI_KEY : option string := GEMINI_API_KEY env.
Definition INGEST_SECRET : string := or_else (INGEST_SECRET_ env) EmptyString.

Definition assertAuthorized (req : Request) : bool :=
  if negb (present (Some INGEST_SECRET)) then true
  else
    let h := or_else (if present (X_HillPulse_Key req)
                      then X_HillPulse_Key req else Authorization req)
                     EmptyString in
    String.eqb h INGEST_SECRET || String.eqb h ("Bearer " ++ INGEST_SECRET).

(** The [try] block of the retry loop, run while [attempt] is [n]. *)
Definition attempt_try (text author url : JsVal) (n : nat) : M string :=
  call (FetchGemini text author url) ;;
  res <- await (gemini R n) ;;
  if status res =? 503 then throw (Error "Gemini overload 503")
  else if negb (ok res)
  then throw (Error ("Gemini error " ++ Z_to_string (status res) ++ ": "
                       ++ text_or_empty res))
  else
    t <- json_optional res ;;
    let out := js_or t (JStr EmptyString) in
    trim_method out "out".

(** The [if] of the [catch] block, after [attempt++]. *)
Definition backoff (attempt : nat) : M unit :=
  if (attempt <=? MAX_RETRIES)%nat
  then let delay := 1000 * 2 ^ (Z.of_nat attempt - 1) in
       call (SetTimeout delay)
  else ret tt.

(** [lastErr?.message] inside the template literal. *)
Definition last_message (lastErr : option Exn) : string :=
  match lastErr with
  | Some e => message e
  | None => "undefined"
  end.

(** The [while (attempt <= MAX_RETRIES)] loop and the [throw] after it. *)
Equations? retry_loop (text author url : JsVal) (attempt : nat)
  (lastErr : option Exn) (s : State) : Outcome string * State
  by wf (S MAX_RETRIES - attempt)%nat lt :=
retry_loop text author url attempt lastErr s with le_dec attempt MAX_RETRIES => {
  | right _ :=
      throw (Error ("Gemini failed after "
                      ++ Z_to_string (Z.of_nat (MAX_RETRIES + 1))
                      ++ " attempts: " ++ last_message lastErr)) s;
  | left _ with attempt_try text author url attempt s => {
      | (Returned out, s1) := (Returned out, s1);
      | (Threw err, s1) with backoff (S attempt) s1 => {
          | (Returned _, s2) := retry_loop text author url (S attempt) (Some err) s2;
          | (Threw e, s2) := (Threw e, s2) } } }.
Proof.
  unfold MAX_RETRIES in *.
  destruct attempt as [|[|[|[|k]]]]; simpl; lia.
Qed.

Definition callGeminiSummary (text author url : JsVal) : M string :=
  if negb (present GEMINI_KEY) then throw (Error "Missing GEMINI_API_KEY")
  else retry_loop text author url 0 None.

Definition sendPushover (title message : string) (url : JsVal) : M bool :=
  let token := PUSHOVER_API_TOKEN env in
  let user := PUSHOVER_USER_KEY env in
  if negb (present token) || negb (present user) then ret false
  else
    let form := [("token", or_else token EmptyString);
                 ("user", or_else user EmptyString);
                 ("title", form_title title);
                 ("message", message)]%string in
    let form := if truthy url then form ++ [("url"%string, to_string url)] else form in
    call (FetchPushover form) ;;
    r <- await (pushover R) ;;
    ret (ok r).

Definition ingest (req : Request) : M Reply :=
  try_catch
    (if negb (assertAuthorized req) then ret (failure 401 "Unauthorized")
     else
       let body := match body req with Some b => b | None => empty_body end in
       let tweet := field_or (data body) (Obj Tweet.empty) in
       let url := js_or (prop tweet Tweet.url) (JStr EmptyString) in
       let author := js_or (prop tweet Tweet.author) (JStr EmptyString) in
       let text := js_or (prop tweet Tweet.text) (JStr EmptyString) in
       text <- (if negb (truthy text) && truthy url
                then fetchTweetText R url else ret text) ;;
       if negb (truthy text) then ret (failure 400 "Missing tweet text")
       else
         summary <- callGeminiSummary text author url ;;
         pushed <- sendPushover "HillPulse" summary url ;;
         ret {| code := 200;
                payload := [("ok", JBool true); ("summary", JStr summary);
                            ("pushed", JBool pushed)]%string |})
    (fun e => ret (failure 500 (message e))).

End Handlers.
End Hardened.

(* ===================================================================== *)
(** ** Vocabulary of the statements

    Histories of calls and of requests, the cases of the resolver, the
    reference decoder, the bindings of the handlers, and the fixtures the
    examples run on. *)
(* ===================================================================== *)

(** *** Histories of the deduplicator *)

Inductive DedupCall : Type :=
| CallMarkSeen (id : JsVal)
| CallIsSeen (id : JsVal).

(** The state after a sequence of calls, with the marks made so far, the
    latest first: the identifier and the time [markSeen] read for it. *)
Fixpoint run_calls (Date_now_at : nat -> Z) (cs : list DedupCall)
  (s : State) (marks : list (JsVal * Z)) : State * list (JsVal * Z) :=
  match cs with
  | [] => (s, marks)
  | CallMarkSeen id :: r =>
      run_calls Date_now_at r (snd (markSeen Date_now_at id s))
                ((id, Date_now_at (reads s)) :: marks)
  | CallIsSeen id :: r =>
      run_calls Date_now_at r (snd (isSeen Date_now_at id s)) marks
  end.

Fixpoint last_mark (id : JsVal) (marks : list (JsVal * Z)) : option Z :=
  match marks with
  | [] => None
  | (k, t) :: r => if JsVal_eq_dec id k then Some t else last_mark id r
  end.

Definition initial_state : State := {| SEEN := []; reads := 0; calls := [] |}.

Definition keys (m : list (JsVal * Z)) : list JsVal := map fst m.

(** *** Clocks, states and the invariant of the map *)

Definition monotone (clock : nat -> Z) : Prop :=
  forall i j, (i <= j)%nat -> clock i <= clock j.

Definition after_epoch (clock : nat -> Z) : Prop := forall i, 0 < clock i.

Definition set_reads (n : nat) (s : State) : State :=
  {| SEEN := SEEN s; reads := n; calls := calls s |}.

Definition set_SEEN (m : list (JsVal * Z)) (s : State) : State :=
  {| SEEN := m; reads := reads s; calls := calls s |}.

(** What ties the map to the marks made: an entry holds the latest mark of
    its key, and a marked key without entry was pruned at a reading already
    more than [TTL_MS] past its mark. *)
Record dedup_inv (clock : nat -> Z) (s : State) (marks : list (JsVal * Z)) : Prop := {
  inv_nodup : NoDup (keys (SEEN s));
  inv_stored : forall id t,
      Map_get id (SEEN s) = Some t -> last_mark id marks = Some t;
  inv_expired : forall id T,
      last_mark id marks = Some T -> Map_get id (SEEN s) = None ->
      exists k, (k < reads s)%nat /\ clock k - T > TTL_MS;
  inv_positive : forall id T, last_mark id marks = Some T -> 0 < T
}.

(** One reading of the clock per minute, from a time after the epoch. *)
Definition minute_clock (n : nat) : Z := 1700000000000 + 60000 * Z.of_nat n.

(** *** Attempts of the summarizer *)

Definition add_calls (evs : list Event) (s : State) : State :=
  {| SEEN := SEEN s; reads := reads s; calls := calls s ++ evs |}.

(** An attempt fails when its fetch is answered with status 503, or when
    its [try] block throws for any reason; [e] is the error caught. *)
Definition attempt_failed (R : Remote) (text author url : JsVal) (n : nat)
  (e : Exn) : Prop :=
  (exists r, gemini R n = Returned r /\ status r = 503 /\
             e = Error "Gemini overload 503")
  \/ (forall s, fst (Hardened.attempt_try R text author url n s) = Threw e).

Definition attempt_succeeded (R : Remote) (text author url : JsVal) (n : nat)
  (out : string) : Prop :=
  forall s, fst (Hardened.attempt_try R text author url n s) = Returned out.

(** The calls of a summarization whose first [n] attempts fail: the fetches
    of the attempts made, with the timers between them. *)
Definition retry_calls (fetch : Event) (n : nat) : list Event :=
  firstn (2 * n + 1)
    [fetch; SetTimeout 1000; fetch; SetTimeout 2000; fetch; SetTimeout 4000; fetch].

(** The generative-text API answers every fetch with status 503. *)
Definition remote_overloaded : Remote :=
  {| oembed := Threw (TypeError "fetch failed");
     syndication := Threw (TypeError "fetch failed");
     gemini := fun _ =>
       Returned {| status := 503; body_text := Returned "overloaded"%string;
                   body_json := Threw (Error "Unexpected token") |};
     pushover := Threw (TypeError "fetch failed");
     sendMail := Returned tt |}.

Definition env_key_only : ProcessEnv :=
  {| GEMINI_API_KEY := Some "key"%string; INGEST_SECRET_ := None;
     PUSHOVER_API_TOKEN := None; PUSHOVER_USER_KEY := None;
     SMTP_HOST := None; SMTP_USER := None; SMTP_PASS := None;
     EMAIL_TO := None; EMAIL_FROM := None |}.

(** *** Answers of the embed-metadata and syndication sources *)

(** The embed-metadata source answered, and no paragraph fragment can be
    extracted: the status is not a success, or the markup has no match. *)
Inductive embed_without_fragment : Outcome HttpResponse -> Prop :=
| embed_not_ok r :
    ok r = false -> embed_without_fragment (Returned r)
| embed_no_paragraph r h html :
    ok r = true -> body_json r = Returned (ParsedWith h) ->
    js_or h (JStr EmptyString) = JStr html ->
    Str.match_paragraph html = None ->
    embed_without_fragment (Returned r).

(** The embed-metadata source makes the [try] block throw: the fetch is
    rejected, the body does not parse, the body is [null], or [html] is a
    truthy value that is no string. *)
Inductive embed_throws : Outcome HttpResponse -> Prop :=
| embed_fetch_rejected e : embed_throws (Threw e)
| embed_json_rejected r e :
    ok r = true -> body_json r = Threw e -> embed_throws (Returned r)
| embed_json_null r :
    ok r = true -> body_json r = Returned ParsedNull -> embed_throws (Returned r)
| embed_html_no_string r h :
    ok r = true -> body_json r = Returned (ParsedWith h) ->
    (forall html, js_or h (JStr EmptyString) <> JStr html) ->
    embed_throws (Returned r).

Inductive embed_fragment : Outcome HttpResponse -> string -> Prop :=
| embed_paragraph r h html fragment :
    ok r = true -> body_json r = Returned (ParsedWith h) ->
    js_or h (JStr EmptyString) = JStr html ->
    Str.match_paragraph html = Some fragment ->
    embed_fragment (Returned r) fragment.

(** The text field of the syndication answer when it is there (a success
    status, a body that parses, a truthy [text]), the empty string when it
    is not. *)
Definition syndication_text (o : Outcome HttpResponse) : JsVal :=
  match o with
  | Returned r2 =>
      if ok r2
      then match body_json r2 with
           | Returned (ParsedWith t) => if truthy t then t else JStr EmptyString
           | _ => JStr EmptyString
           end
      else JStr EmptyString
  | Threw _ => JStr EmptyString
  end.

Definition respond (st : Z) (json : Parsed) : Outcome HttpResponse :=
  Returned {| status := st; body_text := Returned EmptyString;
              body_json := Returned json |}.

(** A tweet whose embed endpoint answers 404 while the syndication
    endpoint has its text. *)
Definition remote_embed_404 : Remote :=
  {| oembed := respond 404 (ParsedWith JUndefined);
     syndication := respond 200 (ParsedWith (JStr "We must pass the CR."));
     gemini := fun _ => respond 200 (ParsedWith (JStr "@repuser: backs CR"));
     pushover := respond 200 (ParsedWith JUndefined);
     sendMail := Returned tt |}.

(** The same, with the embed fetch rejected (a network error). *)
Definition remote_embed_unreachable : Remote :=
  {| oembed := Threw (TypeError "fetch failed");
     syndication := respond 200 (ParsedWith (JStr "We must pass the CR."));
     gemini := fun _ => respond 200 (ParsedWith (JStr "@repuser: backs CR"));
     pushover := respond 200 (ParsedWith JUndefined);
     sendMail := Returned tt |}.

Definition status_url : JsVal := JStr "https://x.com/u/status/123".

(** *** The reference decoder *)

(** Follows the words of the specification: one of the five entities at the
    head of the input, with the character it stands for. *)
Definition spec_entity_here (l : Str.chars) : option (ascii * nat) :=
  if Str.starts_with (Str.of_string "&amp;") l then Some ("&"%char, 5%nat)
  else if Str.starts_with (Str.of_string "&lt;") l then Some ("<"%char, 4%nat)
  else if Str.starts_with (Str.of_string "&gt;") l then Some (">"%char, 4%nat)
  else if Str.starts_with (Str.of_string "&quot;") l then Some (ascii_of_nat 34, 6%nat)
  else if Str.starts_with (Str.of_string "&#39;") l then Some ("'"%char, 5%nat)
  else None.

(** Follows the words of the specification: every occurrence of an entity
    in the source text is decoded, once; the text put in its place is not
    read again. *)
Equations? spec_decode_entities_chars (l : Str.chars) : Str.chars
  by wf (List.length l) lt :=
spec_decode_entities_chars [] := [];
spec_decode_entities_chars (c :: r) with spec_entity_here (c :: r) => {
  | Some (d, S n) := d :: spec_decode_entities_chars (skipn n r);
  | _ := c :: spec_decode_entities_chars r }.
Proof.
  all: simpl; try lia.
  pose proof (length_skipn n r). lia.
Qed.

Definition spec_decode_fragment (fragment : string) : string :=
  Str.to_string
    (spec_decode_entities_chars
       (Str.of_string (Str.replace Str.tag EmptyString fragment))).

(** The embed markup of a tweet whose text is [if a &lt; b then]: the
    ampersand of the entity is itself escaped in the markup. *)
Definition escaped_markup : string :=
  "<blockquote><p lang=en>if a &amp;lt; b then <a href=x>pic</a></p></blockquote>".

Definition remote_escaped : Remote :=
  {| oembed := respond 200 (ParsedWith (JStr escaped_markup));
     syndication := respond 404 (ParsedWith JUndefined);
     gemini := fun _ => respond 200 (ParsedWith (JStr "@repuser: backs CR"));
     pushover := respond 200 (ParsedWith JUndefined);
     sendMail := Returned tt |}.

(** *** The bindings and steps of the baseline handler *)

(** What the resolver returns and the calls it makes; neither depends on
    the state it starts from ([fetchTweetText_state] below). *)
Definition resolved (R : Remote) (url : JsVal) : JsVal :=
  match fst (fetchTweetText R url initial_state) with
  | Returned v => v
  | Threw _ => JStr EmptyString
  end.

Definition resolution_calls (R : Remote) (url : JsVal) : list Event :=
  calls (snd (fetchTweetText R url initial_state)).

Definition is_resolver_call (ev : Event) : bool :=
  match ev with
  | FetchOEmbed _ | FetchSyndication _ => true
  | _ => false
  end.

(** The bindings the baseline handler makes from the request. *)
Definition Baseline_tweet (req : Request) : Field :=
  let body := match body req with Some b => b | None => empty_body end in
  field_or (field_or (data body) (tweet body)) (Obj Tweet.empty).

Definition Baseline_tweetId (req : Request) : JsVal :=
  let tweet := Baseline_tweet req in
  js_or (js_or (js_or (prop tweet Tweet.tweet_id) (prop tweet Tweet.id))
               (prop tweet Tweet.url))
        (JStr "unknown").

Definition Baseline_url (req : Request) : JsVal :=
  js_or (prop (Baseline_tweet req) Tweet.url) (JStr EmptyString).

Definition Baseline_author (req : Request) : JsVal :=
  js_or (prop (Baseline_tweet req) Tweet.author) (JStr EmptyString).

Definition needs_resolver (req : Request) : bool :=
  negb (truthy (js_or (prop (Baseline_tweet req) Tweet.text) (JStr EmptyString)))
  && truthy (Baseline_url req).

(** The text the handler holds after the resolving step. *)
Definition Baseline_text (R : Remote) (req : Request) : JsVal :=
  if needs_resolver req then resolved R (Baseline_url req)
  else js_or (prop (Baseline_tweet req) Tweet.text) (JStr EmptyString).

Definition Baseline_resolution_calls (R : Remote) (req : Request) : list Event :=
  if needs_resolver req then resolution_calls R (Baseline_url req) else [].

(** The summarizing and notifying steps, inside the handler's [try]. *)
Definition Baseline_deliver (env : ProcessEnv) (R : Remote)
  (text author url : JsVal) : M Reply :=
  try_catch
    (summary <- Baseline.callGeminiSummary env R text author url ;;
     pushed <- Baseline.sendPushover env R "HillPulse" summary ;;
     emailed <- Baseline.sendEmail env R ("HillPulse: @" ++ to_string author) summary ;;
     ret {| code := 200;
            payload := [("ok", JBool true); ("duplicate", JBool false);
                        ("summary", JStr summary); ("pushed", JBool pushed);
                        ("emailed", JBool emailed)]%string |})
    (fun e => ret (failure 500 (message e))).

(** *** Mail transports and answers *)

(** The remote services of [R], with the mail transport answering [o]. *)
Definition with_sendMail (o : Outcome unit) (R : Remote) : Remote :=
  {| oembed := oembed R; syndication := syndication R; gemini := gemini R;
     pushover := pushover R; sendMail := o |}.

Definition delivered (summary : string) (pushed emailed : bool) : Reply :=
  {| code := 200;
     payload := [("ok", JBool true); ("duplicate", JBool false);
                 ("summary", JStr summary); ("pushed", JBool pushed);
                 ("emailed", JBool emailed)]%string |}.

(** *** Sequences of requests *)

(** The process after a list of requests, each with the answers of the
    remote services during it. *)
Fixpoint run_requests (clock : nat -> Z) (env : ProcessEnv)
  (rs : list (Remote * Request)) (s : State) : State :=
  match rs with
  | [] => s
  | (R, req) :: rest =>
      run_requests clock env rest (snd (Baseline.ingest clock env R req s))
  end.

(** The payload has none of [tweet_id], [id] and [url]. *)
Definition lacks_identifier (req : Request) : bool :=
  let tweet := Baseline_tweet req in
  negb (truthy (prop tweet Tweet.tweet_id)) && negb (truthy (prop tweet Tweet.id))
  && negb (truthy (prop tweet Tweet.url)).

(** *** Fixtures: configured processes and some requests *)

Definition env_configured : ProcessEnv :=
  {| GEMINI_API_KEY := Some "key"%string;
     INGEST_SECRET_ := None;
     PUSHOVER_API_TOKEN := Some "token"%string;
     PUSHOVER_USER_KEY := Some "user"%string;
     SMTP_HOST := Some "smtp.example.org"%string;
     SMTP_USER := Some "relay"%string;
     SMTP_PASS := Some "pass"%string;
     EMAIL_TO := Some "staff@example.org"%string;
     EMAIL_FROM := None |}.

Definition remote_ok : Remote :=
  {| oembed := respond 404 (ParsedWith JUndefined);
     syndication := respond 404 (ParsedWith JUndefined);
     gemini := fun _ => respond 200 (ParsedWith (JStr "@repuser: backs CR"));
     pushover := respond 200 (ParsedWith JUndefined);
     sendMail := Returned tt |}.

Definition remote_gemini_down : Remote :=
  {| oembed := respond 404 (ParsedWith JUndefined);
     syndication := respond 404 (ParsedWith JUndefined);
     gemini := fun _ => respond 500 (ParsedWith JUndefined);
     pushover := respond 200 (ParsedWith JUndefined);
     sendMail := Returned tt |}.

Definition post (data tweet : Field) : Request :=
  {| X_HillPulse_Key := None; Authorization := None;
     body := Some {| data := data; tweet := tweet |} |}.

Definition tweet_123 : Tweet.t :=
  {| Tweet.tweet_id := JStr "123";
     Tweet.id := JUndefined;
     Tweet.url := JStr "https://x.com/u/status/123";
     Tweet.author := JStr "repuser";
     Tweet.text := JStr "We must pass the CR." |}.

(** The identifier of tweet 123 and nothing else. *)
Definition tweet_123_bare : Tweet.t :=
  {| Tweet.tweet_id := JStr "123"; Tweet.id := JUndefined;
     Tweet.url := JUndefined; Tweet.author := JUndefined;
     Tweet.text := JUndefined |}.

Definition anonymous (text : JsVal) : Tweet.t :=
  {| Tweet.tweet_id := JUndefined; Tweet.id := JUndefined;
     Tweet.url := JUndefined; Tweet.author := JUndefined;
     Tweet.text := text |}.

Definition seen_123 : State :=
  {| SEEN := [(JStr "123", minute_clock 0)]; reads := 1; calls := [] |}.

(** *** Bodies with one key *)

Definition with_body (req : Request) (b : Body) : Request :=
  {| X_HillPulse_Key := X_HillPulse_Key req;
     Authorization := Authorization req;
     body := Some b |}.

Definition env_open : ProcessEnv :=
  {| GEMINI_API_KEY := Some "key"%string; INGEST_SECRET_ := None;
     PUSHOVER_API_TOKEN := Some "token"%string;
     PUSHOVER_USER_KEY := Some "user"%string;
     SMTP_HOST := None; SMTP_USER := None; SMTP_PASS := None;
     EMAIL_TO := None; EMAIL_FROM := None |}.

(** *** A process with a shared secret *)

Definition env_secret : ProcessEnv :=
  {| GEMINI_API_KEY := Some "key"%string;
     INGEST_SECRET_ := Some "s3cret"%string;
     PUSHOVER_API_TOKEN := Some "token"%string;
     PUSHOVER_USER_KEY := Some "user"%string;
     SMTP_HOST := None; SMTP_USER := None; SMTP_PASS := None;
     EMAIL_TO := None; EMAIL_FROM := None |}.

(** *** Push services, and the answers of the hardened handler *)

(** The remote services of [R], with the push service answering [o]. *)
Definition with_pushover (o : Outcome HttpResponse) (R : Remote) : Remote :=
  {| oembed := oembed R; syndication := syndication R; gemini := gemini R;
     pushover := o; sendMail := sendMail R |}.

(** The answer [{ok: true, summary, pushed}] of the hardened handler. *)
Definition summarized (summary : string) (pushed : bool) : Reply :=
  {| code := 200;
     payload := [("ok", JBool true); ("summary", JStr summary);
                 ("pushed", JBool pushed)]%string |}.



(** Tweet 123 was seen 24 hours before the first reading of the clock. *)
Definition seen_123_a_day_ago : State :=
  {| SEEN := [(JStr "123", minute_clock 0 - 24 * 60 * 60 * 1000)];
     reads := 0; calls := [] |}.

Definition env_without_key : ProcessEnv :=
  {| GEMINI_API_KEY := None; INGEST_SECRET_ := None;
     PUSHOVER_API_TOKEN := Some "token"%string;
     PUSHOVER_USER_KEY := Some "user"%string;
     SMTP_HOST := Some "smtp.example.org"%string;
     SMTP_USER := Some "relay"%string;
     SMTP_PASS := Some "pass"%string;
     EMAIL_TO := Some "staff@example.org"%string;
     EMAIL_FROM := None |}.

(** *** The calls of a delivery *)





(** *** The bindings of the hardened handler *)

Definition Hardened_tweet (req : Request) : Field :=
  let body := match body req with Some b => b | None => empty_body end in
  field_or (data body) (Obj Tweet.empty).

Definition Hardened_url (req : Request) : JsVal :=
  js_or (prop (Hardened_tweet req) Tweet.url) (JStr EmptyString).

Definition Hardened_author (req : Request) : JsVal :=
  js_or (prop (Hardened_tweet req) Tweet.author) (JStr EmptyString).

(** The resolving step of the hardened handler. *)
Definition Hardened_resolve (R : Remote) (req : Request) : M JsVal :=
  let text := js_or (prop (Hardened_tweet req) Tweet.text) (JStr EmptyString) in
  if negb (truthy text) && truthy (Hardened_url req)
  then fetchTweetText R (Hardened_url req) else ret text.

(** An entry marked more than 24 hours before the first reading of the
    clock, beside a fresh one. *)
Definition seen_stale_and_fresh : State :=
  {| SEEN := [(JStr "stale", minute_clock 0 - 24 * 60 * 60 * 1000 - 1);
              (JStr "fresh", minute_clock 0 - 1)];
     reads := 0; calls := [] |}.

(* ===================================================================== *)
(** ** Facts about the monad and the map *)
(* ===================================================================== *)

Lemma sameValueZero_eq (a b : JsVal) : sameValueZero a b = true <-> a = b.
Proof.
  unfold sameValueZero. destruct (JsVal_eq_dec a b); split; congruence.
Qed.

Lemma sameValueZero_refl (a : JsVal) : sameValueZero a a = true.
Proof. apply sameValueZero_eq. reflexivity. Qed.

Lemma sameValueZero_neq (a b : JsVal) : a <> b -> sameValueZero a b = false.
Proof.
  unfold sameValueZero. destruct (JsVal_eq_dec a b); congruence.
Qed.

Lemma Map_get_set_same k v m : Map_get k (Map_set k v m) = Some v.
Proof.
  induction m as [|[k' v'] r IH]; simpl.
  - now rewrite sameValueZero_refl.
  - destruct (sameValueZero k k') eqn:E; simpl; rewrite E; auto.
Qed.

Lemma Map_get_set_other k k' v m :
  k <> k' -> Map_get k (Map_set k' v m) = Map_get k m.
Proof.
  intros N. induction m as [|[k0 v0] r IH]; simpl.
  - now rewrite sameValueZero_neq.
  - destruct (sameValueZero k' k0) eqn:E; simpl; [|now rewrite IH].
    apply sameValueZero_eq in E. subst k0. now rewrite sameValueZero_neq.
Qed.

Lemma Map_get_delete_other k k' m :
  k <> k' -> Map_get k (Map_delete k' m) = Map_get k m.
Proof.
  intros N. induction m as [|[k0 v0] r IH]; simpl; auto.
  destruct (sameValueZero k' k0) eqn:E; simpl; [|now rewrite IH].
  apply sameValueZero_eq in E. subst k0. now rewrite sameValueZero_neq.
Qed.

Lemma Map_get_none k m : ~ In k (keys m) -> Map_get k m = None.
Proof.
  induction m as [|[k0 v0] r IH]; simpl; auto.
  intros N. rewrite sameValueZero_neq by (intros ->; tauto). apply IH. tauto.
Qed.

Lemma Map_get_some_key k t m : Map_get k m = Some t -> In k (keys m).
Proof.
  induction m as [|[k0 v0] r IH]; simpl; [discriminate|].
  destruct (sameValueZero k k0) eqn:E; auto.
  apply sameValueZero_eq in E. auto.
Qed.

Lemma Map_get_in k t m : NoDup (keys m) -> In (k, t) m -> Map_get k m = Some t.
Proof.
  induction m as [|[k0 v0] r IH]; simpl; [tauto|].
  intros D [E|I].
  - inversion E; subst. now rewrite sameValueZero_refl.
  - inversion D as [|? ? N D']; subst.
    rewrite sameValueZero_neq; auto.
    intros ->. apply N. change k0 with (fst (k0, t)). now apply in_map.
Qed.

Lemma keys_delete_incl k k' m : In k (keys (Map_delete k' m)) -> In k (keys m).
Proof.
  induction m as [|[k0 v0] r IH]; simpl; auto.
  destruct (sameValueZero k' k0); simpl; tauto.
Qed.

Lemma Map_delete_NoDup k m : NoDup (keys m) -> NoDup (keys (Map_delete k m)).
Proof.
  induction m as [|[k0 v0] r IH]; simpl; auto.
  intros D. inversion D as [|? ? N D']; subst.
  destruct (sameValueZero k k0); simpl; auto.
  constructor; auto. intros I. apply N. eapply keys_delete_incl; eauto.
Qed.

Lemma Map_get_delete_same k m :
  NoDup (keys m) -> Map_get k (Map_delete k m) = None.
Proof.
  induction m as [|[k0 v0] r IH]; simpl; auto.
  intros D. inversion D as [|? ? N D']; subst.
  destruct (sameValueZero k k0) eqn:E; simpl.
  - apply sameValueZero_eq in E. subst. now apply Map_get_none.
  - rewrite E. auto.
Qed.

Lemma keys_set_incl k k' v m :
  In k (keys (Map_set k' v m)) -> k = k' \/ In k (keys m).
Proof.
  induction m as [|[k0 v0] r IH]; simpl.
  - intros [E|[]]; auto.
  - destruct (sameValueZero k' k0); simpl; tauto.
Qed.

Lemma Map_set_NoDup k v m : NoDup (keys m) -> NoDup (keys (Map_set k v m)).
Proof.
  induction m as [|[k0 v0] r IH]; simpl; intros D.
  - constructor; auto.
  - inversion D as [|? ? N D']; subst.
    destruct (sameValueZero k k0) eqn:E; simpl; [constructor; auto|].
    constructor; auto. intros I.
    apply keys_set_incl in I as [->|I]; auto.
    now rewrite sameValueZero_refl in E.
Qed.

(* ===================================================================== *)
(** ** The deduplicator: the map agrees with the history of marks *)
(* ===================================================================== *)

Section Deduplicator.

Variable clock : nat -> Z.
Hypothesis clock_monotone : monotone clock.
Hypothesis clock_after_epoch : after_epoch clock.

Lemma prune_nil s : prune clock [] s = (Returned tt, s).
Proof. reflexivity. Qed.

Lemma prune_cons k t rest s :
  prune clock ((k, t) :: rest) s =
  if clock (reads s) - t >? TTL_MS
  then prune clock rest (set_SEEN (Map_delete k (SEEN s)) (set_reads (S (reads s)) s))
  else prune clock rest (set_reads (S (reads s)) s).
Proof.
  simpl. unfold bind, Date_now; simpl.
  destruct (clock (reads s) - t >? TTL_MS); reflexivity.
Qed.

Lemma prune_inv marks es : forall s,
  dedup_inv clock s marks ->
  (forall k t, In (k, t) es -> last_mark k marks = Some t) ->
  let r := prune clock es s in
  fst r = Returned tt /\ dedup_inv clock (snd r) marks /\
  (reads s <= reads (snd r))%nat /\ calls (snd r) = calls s.
Proof.
  induction es as [|[k t] rest IH]; intros s I E.
  - rewrite prune_nil. simpl. auto.
  - rewrite prune_cons.
    assert (Erest : forall k' t', In (k', t') rest -> last_mark k' marks = Some t')
      by (intros; apply E; now right).
    destruct (clock (reads s) - t >? TTL_MS) eqn:C.
    + apply Z.gtb_lt in C.
      destruct (IH (set_SEEN (Map_delete k (SEEN s)) (set_reads (S (reads s)) s)))
        as (F & I' & L & K); auto.
      * destruct I as [D St Ex Po]. constructor; simpl; auto.
        -- now apply Map_delete_NoDup.
        -- intros id t' G. apply St.
           destruct (JsVal_eq_dec id k) as [->|N].
           ++ rewrite Map_get_delete_same in G by assumption. discriminate.
           ++ now rewrite Map_get_delete_other in G.
        -- intros id T LM G.
           destruct (JsVal_eq_dec id k) as [->|N].
           ++ exists (reads s). split; [lia|].
              rewrite (E k t) in LM by now left. inversion LM; subst. lia.
           ++ rewrite Map_get_delete_other in G by assumption.
              destruct (Ex id T LM G) as (j & Lj & Cj). exists j. split; [lia|auto].
      * simpl in L, K. cbv zeta. split; [exact F|split; [exact I'|split; [lia|exact K]]].
    + destruct (IH (set_reads (S (reads s)) s)) as (F & I' & L & K); auto.
      * destruct I as [D St Ex Po]. constructor; simpl; auto.
        intros id T LM G. destruct (Ex id T LM G) as (j & Lj & Cj).
        exists j. split; [lia|auto].
      * simpl in L, K. cbv zeta. split; [exact F|split; [exact I'|split; [lia|exact K]]].
Qed.

Lemma markSeen_unfold id s :
  markSeen clock id s =
  let s1 := set_SEEN (Map_set id (clock (reads s)) (SEEN s)) (set_reads (S (reads s)) s) in
  prune clock (SEEN s1) s1.
Proof. reflexivity. Qed.

Lemma markSeen_inv id s marks :
  dedup_inv clock s marks ->
  let r := markSeen clock id s in
  fst r = Returned tt /\
  dedup_inv clock (snd r) ((id, clock (reads s)) :: marks) /\
  (reads s < reads (snd r))%nat /\ calls (snd r) = calls s.
Proof.
  intros [D St Ex Po]. rewrite markSeen_unfold. cbv zeta.
  set (s1 := set_SEEN _ _).
  assert (I1 : dedup_inv clock s1 ((id, clock (reads s)) :: marks)).
  { constructor; simpl.
    - now apply Map_set_NoDup.
    - intros id' t G. destruct (JsVal_eq_dec id' id) as [->|N].
      + rewrite Map_get_set_same in G. congruence.
      + rewrite Map_get_set_other in G by assumption. auto.
    - intros id' T LM G. destruct (JsVal_eq_dec id' id) as [->|N].
      + rewrite Map_get_set_same in G. discriminate.
      + rewrite Map_get_set_other in G by assumption.
        destruct (Ex id' T LM G) as (j & Lj & Cj). exists j. split; [lia|auto].
    - intros id' T LM. destruct (JsVal_eq_dec id' id) as [->|N].
      + inversion LM; subst. apply clock_after_epoch.
      + eauto. }
  destruct (prune_inv (SEEN s1) I1) as (F & I' & L & K).
  - intros k t In_. apply (inv_stored I1). apply Map_get_in; auto.
    apply (inv_nodup I1).
  - assert (Rd : reads s1 = S (reads s)) by reflexivity.
    split; [exact F|split; [exact I'|split; [lia|exact K]]].
Qed.

Lemma isSeen_unfold id s :
  isSeen clock id s =
  match Map_get id (SEEN s) with
  | None => (Returned JUndefined, s)
  | Some t =>
      if truthy (JNum t)
      then (Returned (JBool (clock (reads s) - t <? TTL_MS)), set_reads (S (reads s)) s)
      else (Returned (JNum t), s)
  end.
Proof.
  unfold isSeen, bind, get_SEEN.
  destruct (Map_get id (SEEN s)) as [t|]; [|reflexivity].
  destruct (truthy (JNum t)); reflexivity.
Qed.

Lemma isSeen_inv id s marks :
  dedup_inv clock s marks -> dedup_inv clock (snd (isSeen clock id s)) marks.
Proof.
  intros I. rewrite isSeen_unfold.
  destruct (Map_get id (SEEN s)) as [t|]; [|exact I].
  destruct (truthy (JNum t)); [|exact I].
  destruct I as [D St Ex Po]. constructor; simpl; auto.
  intros id' T LM G. destruct (Ex id' T LM G) as (j & Lj & Cj).
  exists j. split; [lia|auto].
Qed.

Lemma initial_inv : dedup_inv clock initial_state [].
Proof.
  constructor; simpl; try discriminate. constructor.
Qed.

Lemma run_calls_inv cs : forall s marks,
  dedup_inv clock s marks ->
  dedup_inv clock (fst (run_calls clock cs s marks)) (snd (run_calls clock cs s marks)).
Proof.
  induction cs as [|[id|id] r IH]; intros s marks I; simpl; auto.
  - apply IH. now apply markSeen_inv.
  - apply IH. now apply isSeen_inv.
Qed.

(** The answer of [isSeen] in a state that agrees with the marks. *)
Lemma isSeen_answer id s marks :
  dedup_inv clock s marks ->
  exists v, fst (isSeen clock id s) = Returned v /\
    truthy v = match last_mark id marks with
               | Some T => clock (reads s) - T <? TTL_MS
               | None => false
               end /\
    (truthy v = true -> v = JBool true).
Proof.
  intros [D St Ex Po]. rewrite isSeen_unfold.
  destruct (Map_get id (SEEN s)) as [t|] eqn:G.
  - rewrite (St _ _ G).
    assert (0 < t) by (eapply Po, St; eauto).
    replace (truthy (JNum t)) with true
      by (simpl; symmetry; apply negb_true_iff, Z.eqb_neq; lia).
    eexists; split; [reflexivity|]. split; [reflexivity|].
    simpl. now intros ->.
  - exists JUndefined. split; [reflexivity|]. simpl. split; [|discriminate].
    destruct (last_mark id marks) as [T|] eqn:LM; auto.
    destruct (Ex id T LM G) as (j & Lj & Cj).
    symmetry. apply Z.ltb_ge.
    assert (clock j <= clock (reads s)) by (apply clock_monotone; lia). lia.
Qed.

End Deduplicator.

(** C2.  Start from the empty map and let any sequence of [markSeen] and
    [isSeen] calls run, on a clock that never goes back and reads times
    after the epoch.  A query of [id] made next, at time [T'], returns a
    truthy value, and then the value [true], exactly when [id] was marked
    and its latest mark, made at time [T], satisfies [T' - T < 24h]; it
    returns a falsy value when [T' - T >= 24h], and when [id] was never
    marked (a pruned entry is one whose mark is more than [24h] old). *)
Theorem isSeen_true_within_24h_of_mark :
  forall clock : nat -> Z,
    monotone clock -> after_epoch clock ->
    forall (cs : list DedupCall) (id : JsVal),
      let s := fst (run_calls clock cs initial_state []) in
      let marks := snd (run_calls clock cs initial_state []) in
      let T' := clock (reads s) in
      exists v, fst (isSeen clock id s) = Returned v /\
        truthy v = match last_mark id marks with
                   | Some T => T' - T <? 24 * 60 * 60 * 1000
                   | None => false
                   end /\
        (truthy v = true -> v = JBool true).
Proof.
  intros clock Mono Pos cs id. cbv zeta.
  apply isSeen_answer; auto.
  apply run_calls_inv; auto. apply initial_inv; auto.
Qed.

Lemma minute_clock_monotone : monotone minute_clock.
Proof. intros i j L. unfold minute_clock. lia. Qed.

Lemma minute_clock_after_epoch : after_epoch minute_clock.
Proof. intros i. unfold minute_clock. lia. Qed.

Lemma isSeen_true_within_24h_of_mark_witness :
  monotone minute_clock /\ after_epoch minute_clock
  /\ exists v,
       fst (isSeen minute_clock (JStr "123")
              (fst (run_calls minute_clock
                      [CallMarkSeen (JStr "123"); CallIsSeen (JStr "456")]
                      initial_state [])))
       = Returned v
       /\ truthy v = true
       /\ (truthy v = true -> v = JBool true).
Proof.
  split; [exact minute_clock_monotone|].
  split; [exact minute_clock_after_epoch|].
  exact (isSeen_true_within_24h_of_mark
           minute_clock_monotone minute_clock_after_epoch
           [CallMarkSeen (JStr "123"); CallIsSeen (JStr "456")] (JStr "123")).
Defined.

(* ===================================================================== *)
(** ** The summarizer of the hardened variant: the retry loop *)
(* ===================================================================== *)

Section RetryLoop.

Import Hardened.

Variable R : Remote.
Variables text author url : JsVal.

Let fetch : Event := FetchGemini text author url.

Lemma add_calls_app evs evs' s :
  add_calls evs' (add_calls evs s) = add_calls (evs ++ evs') s.
Proof. unfold add_calls; simpl. now rewrite app_assoc. Qed.

(** An attempt records its fetch and nothing else, and its outcome does not
    depend on the state. *)
Lemma attempt_try_state n s s' :
  attempt_try R text author url n s =
  (fst (attempt_try R text author url n s'), add_calls [fetch] s).
Proof.
  unfold attempt_try, bind, call, await, json_optional, bind, await, trim_method.
  destruct (gemini R n) as [res|e]; simpl; [|reflexivity].
  destruct (status res =? 503); [reflexivity|].
  destruct (negb (ok res)); [reflexivity|]. simpl.
  destruct (body_json res) as [[|v]|e]; simpl; try reflexivity.
  destruct (js_or v (JStr EmptyString)); reflexivity.
Qed.

Lemma attempt_503 n r s :
  gemini R n = Returned r -> status r = 503 ->
  fst (attempt_try R text author url n s) = Threw (Error "Gemini overload 503").
Proof.
  intros G S503. unfold attempt_try, bind, call, await. rewrite G. simpl.
  rewrite S503. reflexivity.
Qed.

Lemma attempt_thrown n e s :
  gemini R n = Threw e -> fst (attempt_try R text author url n s) = Threw e.
Proof.
  intros G. unfold attempt_try, bind, call, await. rewrite G. reflexivity.
Qed.

Lemma attempt_failed_try n e s :
  attempt_failed R text author url n e ->
  attempt_try R text author url n s = (Threw e, add_calls [fetch] s).
Proof.
  intros [(r & G & S503 & ->)|F]; rewrite (attempt_try_state n s s).
  - now rewrite (attempt_503 _ _ G S503).
  - now rewrite F.
Qed.

Lemma retry_loop_step k lastErr s :
  (k <= MAX_RETRIES)%nat ->
  retry_loop R text author url k lastErr s =
  match attempt_try R text author url k s with
  | (Returned out, s1) => (Returned out, s1)
  | (Threw err, s1) =>
      match backoff (S k) s1 with
      | (Returned _, s2) => retry_loop R text author url (S k) (Some err) s2
      | (Threw e, s2) => (Threw e, s2)
      end
  end.
Proof.
  intros L. rewrite retry_loop_equation_1.
  destruct (le_dec k MAX_RETRIES) as [L'|N]; [|contradiction].
  simpl.
  destruct (attempt_try R text author url k s) as [[out|err] s1]; simpl; auto.
  destruct (backoff (S k) s1) as [[[]|e] s2]; simpl; auto.
Qed.

Lemma retry_loop_exhausted k lastErr s :
  (MAX_RETRIES < k)%nat ->
  retry_loop R text author url k lastErr s =
  (Threw (Error ("Gemini failed after 4 attempts: " ++ last_message lastErr)), s).
Proof.
  intros L. rewrite retry_loop_equation_1.
  destruct (le_dec k MAX_RETRIES) as [L'|N]; [lia|]. reflexivity.
Qed.

Lemma backoff_timer a s :
  (a <= MAX_RETRIES)%nat ->
  backoff a s = (Returned tt, add_calls [SetTimeout (1000 * 2 ^ (Z.of_nat a - 1))] s).
Proof.
  intros L. unfold backoff.
  replace (a <=? MAX_RETRIES)%nat with true by (symmetry; apply Nat.leb_le; lia).
  reflexivity.
Qed.

(** A failed attempt that is not the last one: the timer, then the next
    attempt. *)
Lemma retry_loop_failed k e lastErr s :
  (k < MAX_RETRIES)%nat ->
  attempt_failed R text author url k e ->
  retry_loop R text author url k lastErr s =
  retry_loop R text author url (S k) (Some e)
    (add_calls [fetch; SetTimeout (1000 * 2 ^ Z.of_nat k)] s).
Proof.
  intros L F. rewrite retry_loop_step by lia.
  rewrite (attempt_failed_try s F).
  rewrite backoff_timer by lia. rewrite add_calls_app.
  replace (Z.of_nat (S k) - 1) with (Z.of_nat k) by lia.
  reflexivity.
Qed.

(** The last attempt failed: no timer, and the loop is left. *)
Lemma retry_loop_failed_last e lastErr s :
  attempt_failed R text author url MAX_RETRIES e ->
  retry_loop R text author url MAX_RETRIES lastErr s =
  (Threw (Error ("Gemini failed after 4 attempts: " ++ message e)),
   add_calls [fetch] s).
Proof.
  intros F. rewrite retry_loop_step by lia.
  rewrite (attempt_failed_try s F).
  unfold backoff. simpl. now rewrite retry_loop_exhausted by (unfold MAX_RETRIES; lia).
Qed.

Lemma retry_loop_succeeded k out lastErr s :
  (k <= MAX_RETRIES)%nat ->
  attempt_succeeded R text author url k out ->
  retry_loop R text author url k lastErr s = (Returned out, add_calls [fetch] s).
Proof.
  intros L Su. rewrite retry_loop_step by lia.
  rewrite (attempt_try_state k s s), Su. reflexivity.
Qed.

End RetryLoop.

(** C1.  With an API key configured, let the first [n <= 4] attempts of a
    summarization fail (status 503, or any error thrown in the attempt) and,
    when [n < 4], let the next attempt succeed.  The call then makes
    [n + 1] fetches when [n < 4] and 4 fetches when [n = 4], waits 1000 ms,
    2000 ms and 4000 ms before the 2nd, 3rd and 4th of them, and returns
    what the first successful attempt returns; after a 4th failure it waits
    no more, makes no 5th fetch and throws
    [Gemini failed after 4 attempts: <message of the 4th error>]. *)
Theorem callGeminiSummary_retries_three_times :
  forall (env : ProcessEnv) (R : Remote) (text author url : JsVal)
         (n : nat) (errs : nat -> Exn) (s : State),
    present (GEMINI_API_KEY env) = true ->
    (n <= 4)%nat ->
    (forall k, (k < n)%nat -> attempt_failed R text author url k (errs k)) ->
    ((n < 4)%nat -> exists out, attempt_succeeded R text author url n out) ->
    Hardened.callGeminiSummary env R text author url s =
    ((if (n <? 4)%nat
      then fst (Hardened.attempt_try R text author url n s)
      else Threw (Error ("Gemini failed after 4 attempts: " ++ message (errs 3%nat)))),
     add_calls (retry_calls (FetchGemini text author url) n) s).
Proof.
  intros env R text author url n errs s Key Le Fail Succ.
  unfold Hardened.callGeminiSummary, Hardened.GEMINI_KEY. rewrite Key.
  change (negb true) with false. cbv iota.
  assert (Step : forall k lastErr s0, (k < n)%nat -> (k < 3)%nat ->
            Hardened.retry_loop R text author url k lastErr s0 =
            Hardened.retry_loop R text author url (S k) (Some (errs k))
              (add_calls [FetchGemini text author url;
                          SetTimeout (1000 * 2 ^ Z.of_nat k)] s0)).
  { intros k lastErr s0 Lk L3. apply retry_loop_failed; auto. }
  assert (Stop : forall lastErr s0, (n < 4)%nat ->
            Hardened.retry_loop R text author url n lastErr s0 =
            (fst (Hardened.attempt_try R text author url n s),
             add_calls [FetchGemini text author url] s0)).
  { intros lastErr s0 L. destruct (Succ L) as [out Su].
    assert (L' : (n <= Hardened.MAX_RETRIES)%nat)
      by (unfold Hardened.MAX_RETRIES; lia).
    rewrite (retry_loop_succeeded lastErr s0 L' Su). now rewrite Su. }
  destruct n as [|[|[|[|[|n]]]]]; try lia.
  - rewrite Stop by lia. reflexivity.
  - rewrite Step by lia. rewrite Stop by lia. rewrite add_calls_app. reflexivity.
  - do 2 (rewrite Step by lia). rewrite Stop by lia.
    rewrite !add_calls_app. reflexivity.
  - do 3 (rewrite Step by lia). rewrite Stop by lia.
    rewrite !add_calls_app. reflexivity.
  - do 3 (rewrite Step by lia).
    rewrite (retry_loop_failed_last (e := errs 3%nat)) by (apply Fail; lia).
    rewrite !add_calls_app. reflexivity.
Qed.

Lemma callGeminiSummary_retries_three_times_witness :
  present (GEMINI_API_KEY env_key_only) = true
  /\ Hardened.callGeminiSummary env_key_only remote_overloaded
       (JStr "We must pass the CR.") (JStr "repuser") (JStr "u") initial_state =
     (Threw (Error "Gemini failed after 4 attempts: Gemini overload 503"),
      {| SEEN := []; reads := 0;
         calls :=
           [FetchGemini (JStr "We must pass the CR.") (JStr "repuser") (JStr "u");
            SetTimeout 1000;
            FetchGemini (JStr "We must pass the CR.") (JStr "repuser") (JStr "u");
            SetTimeout 2000;
            FetchGemini (JStr "We must pass the CR.") (JStr "repuser") (JStr "u");
            SetTimeout 4000;
            FetchGemini (JStr "We must pass the CR.") (JStr "repuser") (JStr "u")] |}).
Proof.
  split; [reflexivity|].
  assert (F : forall k, (k < 4)%nat ->
            attempt_failed remote_overloaded (JStr "We must pass the CR.")
              (JStr "repuser") (JStr "u") k (Error "Gemini overload 503")).
  { intros k _. left. eexists. repeat split. }
  assert (S : (4 < 4)%nat ->
            exists out, attempt_succeeded remote_overloaded
              (JStr "We must pass the CR.") (JStr "repuser") (JStr "u") 4 out).
  { intros L. exfalso. exact (Nat.lt_irrefl 4 L). }
  exact (callGeminiSummary_retries_three_times env_key_only
           (fun _ => Error "Gemini overload 503") initial_state
           eq_refl (le_n 4) F S).
Defined.

(* ===================================================================== *)
(** ** The text resolver: which source answers *)
(* ===================================================================== *)

Lemma embed_cases (o : Outcome HttpResponse) :
  embed_throws o \/ embed_without_fragment o \/ exists f, embed_fragment o f.
Proof.
  destruct o as [r|e]; [|left; constructor].
  destruct (ok r) eqn:K; [|right; left; now constructor].
  destruct (body_json r) as [[|h]|e] eqn:J.
  - left. now apply embed_json_null.
  - destruct (js_or h (JStr EmptyString)) as [| |b|n|html] eqn:H;
      try (left; apply embed_html_no_string with (h := h); auto;
           intros html; rewrite H; discriminate).
    destruct (Str.match_paragraph html) as [f|] eqn:P.
    + right; right. exists f. eapply embed_paragraph; eauto.
    + right; left. eapply embed_no_paragraph; eauto.
  - left. eapply embed_json_rejected; eauto.
Qed.

Section Resolver.

Variable R : Remote.
Variable url : JsVal.
Hypothesis url_given : truthy url = true.

Lemma fetchTweetText_fallback s :
  embed_without_fragment (oembed R) ->
  fetchTweetText R url s =
  (Returned (syndication_text (syndication R)),
   add_calls [FetchOEmbed url; FetchSyndication url] s).
Proof.
  intros E. unfold fetchTweetText. rewrite url_given. simpl negb. cbv iota.
  assert (A : forall s0 : State,
             add_calls [FetchSyndication url] (add_calls [FetchOEmbed url] s0) =
             add_calls [FetchOEmbed url; FetchSyndication url] s0)
    by (intros; apply add_calls_app).
  unfold syndication_text.
  unfold bind, try_catch, fetchTweetText_try, bind, call, await, json_property,
    bind, await, html_match.
  change (calls s ++ [FetchOEmbed url]) with (calls (add_calls [FetchOEmbed url] s)).
  inversion E as [r K Eq|r h html K J H P Eq]; cbn [fst snd]; rewrite K; cbn [fst snd].
  - rewrite <- A.
    destruct (syndication R) as [r2|e2]; [|reflexivity].
    destruct (ok r2); [|reflexivity].
    destruct (body_json r2) as [[|t]|e3]; try reflexivity.
    unfold ret. destruct (truthy t); reflexivity.
  - rewrite J. unfold ret. rewrite H, P. rewrite <- A.
    destruct (syndication R) as [r2|e2]; [|reflexivity].
    destruct (ok r2); [|reflexivity].
    destruct (body_json r2) as [[|t]|e3]; try reflexivity.
    destruct (truthy t); reflexivity.
Qed.

Lemma fetchTweetText_thrown s :
  embed_throws (oembed R) ->
  fetchTweetText R url s = (Returned (JStr EmptyString), add_calls [FetchOEmbed url] s).
Proof.
  intros E. unfold fetchTweetText. rewrite url_given. simpl negb. cbv iota.
  unfold bind, try_catch, fetchTweetText_try, bind, call, await, json_property,
    bind, await, html_match.
  inversion E as [e Eq|r e K J Eq|r K J Eq|r h K J H Eq]; cbn [fst snd];
    try reflexivity; rewrite K; cbn [fst snd]; rewrite J; try reflexivity.
  unfold ret. destruct (js_or h (JStr EmptyString)) as [| |b|n|html] eqn:Hh;
    try reflexivity.
  now destruct (H html).
Qed.

Lemma fetchTweetText_fragment fragment s :
  embed_fragment (oembed R) fragment ->
  fetchTweetText R url s =
  (Returned (JStr (decode_fragment fragment)), add_calls [FetchOEmbed url] s).
Proof.
  intros E. unfold fetchTweetText. rewrite url_given. simpl negb. cbv iota.
  unfold bind, try_catch, fetchTweetText_try, bind, call, await, json_property,
    bind, await, html_match.
  inversion E as [r h html f K J H P Eq1 Eq2]; cbn [fst snd].
  rewrite K; cbn [fst snd]. rewrite J. unfold ret. rewrite H, P. reflexivity.
Qed.

End Resolver.

(** C6, as amended.  For a non-empty URL:
    - when the embed-metadata source answers with a non-success status or
      with markup that has no paragraph fragment, the resolver calls the
      syndication endpoint for the same URL and returns its text field when
      present, the empty string otherwise;
    - when the embed-metadata fetch is rejected or its body fails to parse
      (any error thrown in the block), the resolver returns the empty string
      and does not call the syndication endpoint;
    - the resolver returns the empty string only in these cases: the embed
      source threw, or it gave no fragment and the syndication source gave
      no text, or the fragment it gave decodes to the empty string. *)
Theorem fetchTweetText_falls_back_unless_thrown :
  forall (R : Remote) (url : JsVal) (s : State),
    truthy url = true ->
    (embed_without_fragment (oembed R) ->
     fetchTweetText R url s =
     (Returned (syndication_text (syndication R)),
      add_calls [FetchOEmbed url; FetchSyndication url] s))
    /\ (embed_throws (oembed R) ->
        fetchTweetText R url s =
        (Returned (JStr EmptyString), add_calls [FetchOEmbed url] s))
    /\ (fst (fetchTweetText R url s) = Returned (JStr EmptyString) ->
        embed_throws (oembed R)
        \/ (embed_without_fragment (oembed R)
            /\ syndication_text (syndication R) = JStr EmptyString)
        \/ (exists f, embed_fragment (oembed R) f
                      /\ decode_fragment f = EmptyString)).
Proof.
  intros R url s U. split; [|split].
  - now apply fetchTweetText_fallback.
  - now apply fetchTweetText_thrown.
  - intros E. destruct (embed_cases (oembed R)) as [T|[N|[f F]]]; auto.
    + right; left. split; auto.
      rewrite (fetchTweetText_fallback R url U s N) in E. simpl in E. congruence.
    + right; right. exists f. split; auto.
      rewrite (fetchTweetText_fragment R url U s F) in E. simpl in E. congruence.
Qed.

Lemma fetchTweetText_falls_back_unless_thrown_witness :
  truthy status_url = true
  /\ fetchTweetText remote_embed_404 status_url initial_state =
     (Returned (JStr "We must pass the CR."),
      add_calls [FetchOEmbed status_url; FetchSyndication status_url] initial_state).
Proof.
  split; [reflexivity|].
  apply (proj1 (fetchTweetText_falls_back_unless_thrown
                  remote_embed_404 status_url initial_state eq_refl)).
  apply embed_not_ok. reflexivity.
Defined.

(** C6 fails as stated: a network error of the embed-metadata fetch ends
    the resolver with the empty string, the syndication endpoint is not
    called although it has the text. *)
Lemma fetchTweetText_no_fallback_after_network_error :
  truthy status_url = true
  /\ oembed remote_embed_unreachable = Threw (TypeError "fetch failed")
  /\ syndication_text (syndication remote_embed_unreachable)
     = JStr "We must pass the CR."
  /\ fetchTweetText remote_embed_unreachable status_url initial_state =
     (Returned (JStr EmptyString),
      {| SEEN := []; reads := 0; calls := [FetchOEmbed status_url] |}).
Proof. repeat split. Qed.

(* ===================================================================== *)
(** ** The text resolver: decoding the fragment *)
(* ===================================================================== *)

(** C5 at a failing input.  The fragment [if a &amp;lt; b then <a
    href=x>pic</a>] loses its tags, but [&amp;lt;] is decoded twice: to
    [&lt;] by the first replacement and on to [<] by the second one, where
    one decoding of each source occurrence gives [&lt;]. *)
Theorem decode_fragment_decodes_amp_twice :
  Str.match_paragraph escaped_markup = Some "if a &amp;lt; b then <a href=x>pic</a>"%string
  /\ fst (fetchTweetText remote_escaped status_url initial_state)
     = Returned (JStr "if a < b then pic")
  /\ spec_decode_fragment "if a &amp;lt; b then <a href=x>pic</a>"
     = "if a &lt; b then pic"%string
  /\ decode_fragment "&amp;lt;" = "<"%string
  /\ spec_decode_fragment "&amp;lt;" = "&lt;"%string.
Proof. repeat split. Qed.

(* ===================================================================== *)
(** ** The baseline handler, step by step *)
(* ===================================================================== *)

Lemma add_calls_nil s : add_calls [] s = s.
Proof. destruct s. unfold add_calls. simpl. now rewrite app_nil_r. Qed.

Lemma fetchTweetText_state R url s :
  fetchTweetText R url s = (Returned (resolved R url), add_calls (resolution_calls R url) s).
Proof.
  unfold resolved, resolution_calls.
  destruct (truthy url) eqn:U.
  - destruct (embed_cases (oembed R)) as [T|[N|[f F]]].
    + now rewrite !(fetchTweetText_thrown R url U _ T).
    + now rewrite !(fetchTweetText_fallback R url U _ N).
    + now rewrite !(fetchTweetText_fragment R url U _ F).
  - unfold fetchTweetText. rewrite U. simpl. now rewrite add_calls_nil.
Qed.

Lemma resolution_calls_resolver R url :
  forallb is_resolver_call (resolution_calls R url) = true.
Proof.
  unfold resolution_calls.
  destruct (truthy url) eqn:U.
  - destruct (embed_cases (oembed R)) as [T|[N|[f F]]].
    + now rewrite (fetchTweetText_thrown R url U _ T).
    + now rewrite (fetchTweetText_fallback R url U _ N).
    + now rewrite (fetchTweetText_fragment R url U _ F).
  - unfold fetchTweetText. rewrite U. reflexivity.
Qed.

Lemma prune_returns clock es : forall s, fst (prune clock es s) = Returned tt.
Proof.
  induction es as [|[k t] rest IH]; intros s; [reflexivity|].
  rewrite prune_cons. destruct (_ >? _); apply IH.
Qed.

Lemma markSeen_returns clock id s :
  markSeen clock id s = (Returned tt, snd (markSeen clock id s)).
Proof.
  rewrite (surjective_pairing (markSeen clock id s)) at 1.
  f_equal. rewrite markSeen_unfold. apply prune_returns.
Qed.

Section BaselineSteps.

Variable clock : nat -> Z.
Variable env : ProcessEnv.
Variable R : Remote.
Variable req : Request.

Let id := Baseline_tweetId req.
Let txt := Baseline_text R req.

(** The handler as its steps: resolving, the 400 answer, the duplicate
    check, marking, and the delivery under the handler's [catch]. *)
Lemma ingest_steps s :
  Baseline.ingest clock env R req s =
  let s1 := add_calls (Baseline_resolution_calls R req) s in
  if negb (truthy txt)
  then (Returned (failure 400 "Could not retrieve tweet text"), s1)
  else
    match isSeen clock id s1 with
    | (Returned seen, s2) =>
        if truthy seen then (Returned duplicate_reply, s2)
        else Baseline_deliver env R txt (Baseline_author req) (Baseline_url req)
               (snd (markSeen clock id s2))
    | (Threw e, s2) => (Returned (failure 500 (message e)), s2)
    end.
Proof.
  unfold Baseline.ingest, Baseline_deliver.
  unfold try_catch at 1. unfold bind at 1.
  fold (Baseline_tweet req). fold (Baseline_url req). fold (Baseline_author req).
  fold (Baseline_tweetId req). fold id.
  change (negb (truthy (js_or (prop (Baseline_tweet req) Tweet.text) (JStr EmptyString)))
          && truthy (Baseline_url req)) with (needs_resolver req).
  assert (Res :
    (if needs_resolver req
     then fetchTweetText R (Baseline_url req)
     else ret (js_or (prop (Baseline_tweet req) Tweet.text) (JStr EmptyString))) s
    = (Returned txt, add_calls (Baseline_resolution_calls R req) s)).
  { unfold txt, Baseline_text, Baseline_resolution_calls.
    destruct (needs_resolver req).
    - apply fetchTweetText_state.
    - unfold ret. now rewrite add_calls_nil. }
  rewrite Res. cbv zeta.
  destruct (negb (truthy txt)); [reflexivity|].
  unfold bind at 1.
  destruct (isSeen clock id (add_calls (Baseline_resolution_calls R req) s))
    as [[seen|e] s2]; [|reflexivity].
  destruct (truthy seen); [reflexivity|].
  unfold bind at 1. rewrite markSeen_returns.
  unfold try_catch. reflexivity.
Qed.

End BaselineSteps.

(* ===================================================================== *)
(** ** The baseline handler: delivery and the store *)
(* ===================================================================== *)

Section Delivery.

Variable env : ProcessEnv.
Variable R : Remote.
Variables text author url : JsVal.

Lemma callGeminiSummary_calls s :
  exists o evs,
    Baseline.callGeminiSummary env R text author url s = (o, add_calls evs s).
Proof.
  unfold Baseline.callGeminiSummary, bind, call, await, json_optional, bind,
    await, trim_method, throw, ret.
  destruct (negb (present (Baseline.GEMINI_KEY env))).
  { exists (Threw (Error "Missing GEMINI_API_KEY")), []. now rewrite add_calls_nil. }
  change {| SEEN := SEEN s; reads := reads s;
            calls := calls s ++ [FetchGemini text author url] |}
    with (add_calls [FetchGemini text author url] s).
  destruct (gemini R 0) as [res|e]; [|eauto].
  destruct (negb (ok res)); [eauto|].
  destruct (body_json res) as [[|v]|e]; eauto.
  - simpl. eauto.
  - destruct (js_or v (JStr EmptyString)); eauto.
Qed.

Lemma sendPushover_calls title msg s :
  exists o evs, Baseline.sendPushover env R title msg s = (o, add_calls evs s).
Proof.
  unfold Baseline.sendPushover, bind, call, await, ret.
  destruct (negb (present (PUSHOVER_API_TOKEN env))
            || negb (present (PUSHOVER_USER_KEY env))).
  { exists (Returned false), []. now rewrite add_calls_nil. }
  match goal with
  | |- context [calls s ++ [?ev]] =>
      change {| SEEN := SEEN s; reads := reads s; calls := calls s ++ [ev] |}
        with (add_calls [ev] s)
  end.
  destruct (pushover R) as [r|e]; eauto.
Qed.

Lemma sendEmail_calls subject body s :
  exists o evs, Baseline.sendEmail env R subject body s = (o, add_calls evs s).
Proof.
  unfold Baseline.sendEmail, bind, call, await, ret.
  destruct (negb (present (SMTP_HOST env)) || negb (present (SMTP_USER env))
            || negb (present (SMTP_PASS env)) || negb (present (EMAIL_TO env))).
  { exists (Returned false), []. now rewrite add_calls_nil. }
  match goal with
  | |- context [calls s ++ [?ev]] =>
      change {| SEEN := SEEN s; reads := reads s; calls := calls s ++ [ev] |}
        with (add_calls [ev] s)
  end.
  destruct (sendMail R) as [[]|e]; eauto.
Qed.

(** The delivery always answers, and touches nothing but the list of
    calls. *)
Lemma Baseline_deliver_calls s :
  exists reply evs,
    Baseline_deliver env R text author url s = (Returned reply, add_calls evs s).
Proof.
  unfold Baseline_deliver, try_catch, bind.
  destruct (callGeminiSummary_calls s) as (o1 & ev1 & E1). rewrite E1.
  destruct o1 as [summary|e]; [|unfold ret; eauto].
  destruct (sendPushover_calls "HillPulse" summary (add_calls ev1 s))
    as (o2 & ev2 & E2). rewrite E2, add_calls_app.
  destruct o2 as [pushed|e]; [|unfold ret; eauto].
  destruct (sendEmail_calls ("HillPulse: @" ++ to_string author) summary
              (add_calls (ev1 ++ ev2) s)) as (o3 & ev3 & E3).
  rewrite E3, add_calls_app.
  destruct o3 as [emailed|e]; unfold ret; eauto.
Qed.

End Delivery.

(** When the delivery with a working mail transport ends with
    [emailed: true], the delivery with a transport that throws [e] ends in
    the handler's [catch], in the same state. *)
Lemma Baseline_deliver_mail_failure env R text author url s summary pushed s' e :
  Baseline_deliver env (with_sendMail (Returned tt) R) text author url s =
    (Returned (delivered summary pushed true), s') ->
  Baseline_deliver env (with_sendMail (Threw e) R) text author url s =
    (Returned (failure 500 (message e)), s').
Proof.
  unfold Baseline_deliver, try_catch, bind.
  change (Baseline.callGeminiSummary env (with_sendMail (Threw e) R))
    with (Baseline.callGeminiSummary env (with_sendMail (Returned tt) R)).
  destruct (Baseline.callGeminiSummary env (with_sendMail (Returned tt) R)
              text author url s) as [[sm|e1] s1]; [|discriminate].
  change (Baseline.sendPushover env (with_sendMail (Threw e) R))
    with (Baseline.sendPushover env (with_sendMail (Returned tt) R)).
  destruct (Baseline.sendPushover env (with_sendMail (Returned tt) R)
              "HillPulse" sm s1) as [[p|e2] s2]; [|discriminate].
  unfold Baseline.sendEmail, bind, call, await, ret. simpl sendMail.
  destruct (negb (present (SMTP_HOST env)) || negb (present (SMTP_USER env))
            || negb (present (SMTP_PASS env)) || negb (present (EMAIL_TO env))).
  - discriminate.
  - intros H. inversion H; subst. reflexivity.
Qed.

Section Store.

Variable clock : nat -> Z.

Lemma prune_store es : forall s,
  reads (snd (prune clock es s)) = (reads s + List.length es)%nat
  /\ calls (snd (prune clock es s)) = calls s
  /\ (NoDup (keys (SEEN s)) -> NoDup (keys (SEEN (snd (prune clock es s))))).
Proof.
  induction es as [|[k t] rest IH]; intros s.
  - rewrite prune_nil. simpl. repeat split; auto.
  - rewrite prune_cons. destruct (_ >? _).
    + destruct (IH (set_SEEN (Map_delete k (SEEN s)) (set_reads (S (reads s)) s)))
        as (Rd & Ca & Nd).
      simpl in *. repeat split; auto; try lia.
      intros D. apply Nd. now apply Map_delete_NoDup.
    + destruct (IH (set_reads (S (reads s)) s)) as (Rd & Ca & Nd).
      simpl in *. repeat split; auto; lia.
Qed.

(** An entry survives the loop when the loop meets it with its own time
    only, at readings no more than [TTL_MS] after that time. *)
Lemma prune_keeps id T es : forall s,
  Map_get id (SEEN s) = Some T ->
  (forall t, In (id, t) es -> t = T) ->
  (forall k, (reads s <= k)%nat -> (k < reads s + List.length es)%nat ->
             clock k - T <= TTL_MS) ->
  Map_get id (SEEN (snd (prune clock es s))) = Some T.
Proof.
  induction es as [|[k t] rest IH]; intros s G Own W.
  - now rewrite prune_nil.
  - rewrite prune_cons.
    assert (Own' : forall t', In (id, t') rest -> t' = T)
      by (intros; apply Own; now right).
    destruct (clock (reads s) - t >? TTL_MS) eqn:C.
    + apply Z.gtb_lt in C.
      assert (N : id <> k).
      { intros ->. rewrite (Own t) in C by now left.
        specialize (W (reads s)). simpl in W. lia. }
      apply IH; simpl; auto.
      * now rewrite Map_get_delete_other.
      * intros j L1 L2. apply W; simpl; lia.
    + apply IH; simpl; auto.
      intros j L1 L2. apply W; simpl; lia.
Qed.

Lemma markSeen_store id s :
  let s' := snd (markSeen clock id s) in
  (reads s < reads s')%nat /\ calls s' = calls s
  /\ (NoDup (keys (SEEN s)) -> NoDup (keys (SEEN s'))).
Proof.
  cbv zeta. rewrite markSeen_unfold. cbv zeta.
  match goal with |- context [prune clock ?es ?s1] =>
    destruct (prune_store es s1) as (Rd & Ca & Nd) end.
  simpl in *. repeat split; auto; try lia.
  intros D. apply Nd. now apply Map_set_NoDup.
Qed.

Lemma markSeen_keeps id' s id T :
  NoDup (keys (SEEN s)) ->
  Map_get id (Map_set id' (clock (reads s)) (SEEN s)) = Some T ->
  (forall k, (reads s < k)%nat -> (k < reads (snd (markSeen clock id' s)))%nat ->
             clock k - T <= TTL_MS) ->
  Map_get id (SEEN (snd (markSeen clock id' s))) = Some T.
Proof.
  intros D G W. revert W. rewrite markSeen_unfold. cbv zeta.
  match goal with |- context [prune clock ?es ?s1] =>
    pose proof (prune_store es s1) as (Rd & _ & _); intros W;
    apply prune_keeps end; simpl in *; auto.
  - intros t I.
    assert (Map_get id (Map_set id' (clock (reads s)) (SEEN s)) = Some t)
      by (apply Map_get_in; auto; now apply Map_set_NoDup).
    congruence.
  - intros k L1 L2. apply W; lia.
Qed.

End Store.

(* ===================================================================== *)
(** ** The baseline handler: the duplicate check over requests *)
(* ===================================================================== *)

Section DuplicateCheck.

Variable clock : nat -> Z.

(** The two outcomes of the check: a truthy answer for an entry inside the
    window, or a falsy answer that leaves the map as it was. *)
Lemma isSeen_cases id s :
  (exists t, Map_get id (SEEN s) = Some t /\ t <> 0
             /\ clock (reads s) - t < TTL_MS
             /\ isSeen clock id s = (Returned (JBool true), set_reads (S (reads s)) s))
  \/ (exists v s2, isSeen clock id s = (Returned v, s2) /\ truthy v = false
                   /\ SEEN s2 = SEEN s /\ calls s2 = calls s
                   /\ (reads s <= reads s2 <= S (reads s))%nat
                   /\ forall t, Map_get id (SEEN s) = Some t ->
                                t = 0 \/ TTL_MS <= clock (reads s) - t).
Proof.
  rewrite isSeen_unfold.
  destruct (Map_get id (SEEN s)) as [t|] eqn:G.
  - destruct (truthy (JNum t)) eqn:Tr.
    + destruct (clock (reads s) - t <? TTL_MS) eqn:C.
      * left. exists t. apply Z.ltb_lt in C. simpl in Tr.
        apply negb_true_iff, Z.eqb_neq in Tr. auto.
      * right. do 2 eexists. split; [reflexivity|]. simpl.
        apply Z.ltb_ge in C. repeat split; auto.
        intros t' E. inversion E; subst. auto.
    + right. do 2 eexists. split; [reflexivity|]. rewrite Tr.
      simpl in Tr. apply negb_false_iff, Z.eqb_eq in Tr.
      repeat split; auto. intros t' E. inversion E; subst. auto.
  - right. do 2 eexists. split; [reflexivity|]. simpl.
    repeat split; auto. discriminate.
Qed.

Variable env : ProcessEnv.
Variable R : Remote.
Variable req : Request.

Lemma ingest_answers_duplicate s t :
  truthy (Baseline_text R req) = true ->
  Map_get (Baseline_tweetId req) (SEEN s) = Some t -> t <> 0 ->
  clock (reads s) - t < TTL_MS ->
  Baseline.ingest clock env R req s =
  (Returned duplicate_reply,
   set_reads (S (reads s)) (add_calls (Baseline_resolution_calls R req) s)).
Proof.
  intros Tx G N W. rewrite ingest_steps. cbv zeta. rewrite Tx. simpl negb. cbv iota.
  rewrite isSeen_unfold. simpl SEEN. rewrite G.
  replace (truthy (JNum t)) with true
    by (simpl; symmetry; apply negb_true_iff, Z.eqb_neq; auto).
  simpl reads. replace (clock (reads s) - t <? TTL_MS) with true
    by (symmetry; now apply Z.ltb_lt).
  reflexivity.
Qed.

(** A request that is answered neither 400 nor as a duplicate was marked
    and delivered. *)
Lemma ingest_processed s reply s' :
  Baseline.ingest clock env R req s = (Returned reply, s') ->
  code reply <> 400 -> reply <> duplicate_reply ->
  exists s2 evs,
    SEEN s2 = SEEN s /\ (reads s <= reads s2 <= S (reads s))%nat
    /\ s' = add_calls evs (snd (markSeen clock (Baseline_tweetId req) s2)).
Proof.
  rewrite ingest_steps. cbv zeta.
  destruct (negb (truthy (Baseline_text R req))).
  { intros E N4 _. inversion E; subst. now destruct N4. }
  destruct (isSeen_cases (Baseline_tweetId req)
              (add_calls (Baseline_resolution_calls R req) s))
    as [(t & _ & _ & _ & E)|(v & s2 & E & Fv & Sn & _ & Rd & _)]; rewrite E.
  { intros E' _ Nd. inversion E'; subst. now destruct Nd. }
  rewrite Fv. intros E' _ _.
  destruct (Baseline_deliver_calls env R (Baseline_text R req)
              (Baseline_author req) (Baseline_url req)
              (snd (markSeen clock (Baseline_tweetId req) s2)))
    as (reply' & evs & D).
  rewrite D in E'. inversion E'; subst.
  exists s2, evs. simpl in *. auto.
Qed.

(** One request leaves the map a map, and keeps every entry whose time is
    less than [TTL_MS] before all the readings the request makes. *)
Lemma ingest_store s :
  NoDup (keys (SEEN s)) ->
  let s' := snd (Baseline.ingest clock env R req s) in
  NoDup (keys (SEEN s')) /\ (reads s <= reads s')%nat
  /\ forall id T,
       Map_get id (SEEN s) = Some T -> T <> 0 ->
       (forall k, (reads s <= k)%nat -> (k < reads s')%nat -> clock k - T < TTL_MS) ->
       Map_get id (SEEN s') = Some T.
Proof.
  intros D. cbv zeta. rewrite ingest_steps. cbv zeta.
  set (s1 := add_calls (Baseline_resolution_calls R req) s).
  destruct (negb (truthy (Baseline_text R req))).
  { simpl. auto. }
  destruct (isSeen_cases (Baseline_tweetId req) s1)
    as [(t & _ & _ & _ & E)|(v & s2 & E & Fv & Sn & _ & Rd & Old)]; rewrite E.
  { simpl. repeat split; auto. }
  rewrite Fv.
  destruct (Baseline_deliver_calls env R (Baseline_text R req)
              (Baseline_author req) (Baseline_url req)
              (snd (markSeen clock (Baseline_tweetId req) s2)))
    as (reply' & evs & Dl).
  rewrite Dl. simpl snd. simpl SEEN. simpl reads.
  destruct (markSeen_store clock (Baseline_tweetId req) s2) as (Rd' & _ & Nd).
  simpl in Sn, Rd.
  repeat split.
  - apply Nd. now rewrite Sn.
  - lia.
  - intros id T G N W.
    apply markSeen_keeps.
    + now rewrite Sn.
    + rewrite Sn. rewrite Map_get_set_other; auto.
      intros ->. destruct (Old T G) as [Z0|Ex]; [contradiction|].
      assert (R1 : reads s1 = reads s) by reflexivity. rewrite R1 in Ex.
      specialize (W (reads s)). simpl in W. lia.
    + intros k L1 L2. apply Z.lt_le_incl, W; lia.
Qed.

End DuplicateCheck.

Lemma run_requests_store clock env rs : forall s,
  NoDup (keys (SEEN s)) ->
  let s' := run_requests clock env rs s in
  NoDup (keys (SEEN s')) /\ (reads s <= reads s')%nat
  /\ forall id T,
       Map_get id (SEEN s) = Some T -> T <> 0 ->
       (forall k, (reads s <= k)%nat -> (k < reads s')%nat -> clock k - T < TTL_MS) ->
       Map_get id (SEEN s') = Some T.
Proof.
  induction rs as [|[R req] rest IH]; intros s D; simpl.
  - auto.
  - destruct (ingest_store clock env R req s D) as (D1 & L1 & K1).
    destruct (IH _ D1) as (D2 & L2 & K2).
    repeat split; auto; try lia.
    intros id T G N W. apply K2; auto.
    + apply K1; auto. intros k A B. apply W; lia.
    + intros k A B. apply W; lia.
Qed.

(** After [markSeen id] the entry of [id] holds the time read, as long as
    the readings of the pruning loop stay within [TTL_MS] of it. *)
Lemma markSeen_records clock id s :
  NoDup (keys (SEEN s)) ->
  (forall k, (reads s < k)%nat -> (k < reads (snd (markSeen clock id s)))%nat ->
             clock k - clock (reads s) <= TTL_MS) ->
  Map_get id (SEEN (snd (markSeen clock id s))) = Some (clock (reads s)).
Proof.
  intros D W. apply markSeen_keeps; auto. apply Map_get_set_same.
Qed.

(* ===================================================================== *)
(** ** The initial state *)
(* ===================================================================== *)

Lemma NoDup_initial : NoDup (keys (SEEN initial_state)).
Proof. constructor. Qed.

(* ===================================================================== *)
(** ** The baseline handler: duplicates *)
(* ===================================================================== *)

(** C4, as amended.  A [POST /ingest] of the baseline variant whose text is
    non-empty after the resolving step and whose identifier has an entry
    less than 24 hours old is answered 200 with [{ok: true, duplicate:
    true}]; the only calls it makes are those of the text resolver: no
    summarizer, no notifier. *)
Theorem seen_request_with_text_is_duplicate :
  forall (clock : nat -> Z) (env : ProcessEnv) (R : Remote) (req : Request)
         (s : State) (t : Z),
    truthy (Baseline_text R req) = true ->
    Map_get (Baseline_tweetId req) (SEEN s) = Some t ->
    t <> 0 ->
    clock (reads s) - t < 24 * 60 * 60 * 1000 ->
    Baseline.ingest clock env R req s =
    (Returned {| code := 200;
                 payload := [("ok", JBool true); ("duplicate", JBool true)]%string |},
     set_reads (S (reads s)) (add_calls (Baseline_resolution_calls R req) s))
    /\ forallb is_resolver_call (Baseline_resolution_calls R req) = true.
Proof.
  intros clock env R req s t Tx G N W. split.
  - now apply ingest_answers_duplicate with (t := t).
  - unfold Baseline_resolution_calls.
    destruct (needs_resolver req); [apply resolution_calls_resolver|reflexivity].
Qed.

Lemma seen_request_with_text_is_duplicate_witness :
  truthy (Baseline_text remote_ok (post (Obj tweet_123) (Prim JUndefined))) = true
  /\ Map_get (Baseline_tweetId (post (Obj tweet_123) (Prim JUndefined)))
             (SEEN seen_123) = Some (minute_clock 0)
  /\ minute_clock 0 <> 0
  /\ minute_clock (reads seen_123) - minute_clock 0 < 24 * 60 * 60 * 1000
  /\ Baseline.ingest minute_clock env_configured remote_ok
       (post (Obj tweet_123) (Prim JUndefined)) seen_123 =
     (Returned {| code := 200;
                  payload := [("ok", JBool true); ("duplicate", JBool true)]%string |},
      {| SEEN := [(JStr "123", minute_clock 0)]; reads := 2; calls := [] |}).
Proof.
  assert (N : minute_clock 0 <> 0) by (vm_compute; discriminate).
  assert (W : minute_clock (reads seen_123) - minute_clock 0 < 24 * 60 * 60 * 1000)
    by (vm_compute; reflexivity).
  split; [reflexivity|]. split; [reflexivity|].
  split; [exact N|]. split; [exact W|].
  exact (proj1 (seen_request_with_text_is_duplicate minute_clock env_configured
                  remote_ok (post (Obj tweet_123) (Prim JUndefined)) seen_123
                  eq_refl eq_refl N W)).
Defined.

(** C4 fails as stated: the identifier 123 was seen a minute ago, yet a
    request that has this identifier and no text and no URL is answered
    400, since the text is checked before the duplicates. *)
Lemma seen_request_without_text_is_rejected :
  Map_get (Baseline_tweetId (post (Obj tweet_123_bare) (Prim JUndefined)))
          (SEEN seen_123) = Some (minute_clock 0)
  /\ minute_clock (reads seen_123) - minute_clock 0 < 24 * 60 * 60 * 1000
  /\ Baseline.ingest minute_clock env_configured remote_ok
       (post (Obj tweet_123_bare) (Prim JUndefined)) seen_123 =
     (Returned {| code := 400;
                  payload := [("ok", JBool false);
                              ("error", JStr "Could not retrieve tweet text")]%string |},
      seen_123).
Proof. repeat split. Qed.

(** C3 fails as stated: the summarizer answers 500 to the first request for
    tweet 123, the handler answers 500, and the identifier is in the map;
    the same request sent again a few minutes later, with the summarizer
    back, is answered as a duplicate and nothing is delivered. *)
Lemma failed_request_suppresses_its_retry :
  let first := Baseline.ingest minute_clock env_configured remote_gemini_down
                 (post (Obj tweet_123) (Prim JUndefined)) initial_state in
  fst first = Returned {| code := 500;
                          payload := [("ok", JBool false);
                                      ("error", JStr "Gemini error 500: ")]%string |}
  /\ Map_get (JStr "123") (SEEN (snd first)) = Some (minute_clock 0)
  /\ Baseline.ingest minute_clock env_configured remote_ok
       (post (Obj tweet_123) (Prim JUndefined)) (snd first) =
     (Returned {| code := 200;
                  payload := [("ok", JBool true); ("duplicate", JBool true)]%string |},
      {| SEEN := [(JStr "123", minute_clock 0)]; reads := 3;
         calls := [FetchGemini (JStr "We must pass the CR.") (JStr "repuser")
                               (JStr "https://x.com/u/status/123")] |}).
Proof. repeat split. Qed.

(** C3, as amended.  In the baseline variant the entry of an identifier is
    created as soon as a request with text has passed the duplicate check,
    before the summarizer is called.  When the request then fails with a
    500 answer the identifier stays recorded, and a retry for the same
    identifier that is checked less than 24 hours after the failed request
    arrived, and has a text, is answered as a duplicate. *)
Theorem failed_request_is_recorded_as_seen :
  forall (clock : nat -> Z) (env : ProcessEnv) (R : Remote) (req : Request)
         (s : State) (reply : Reply) (s' : State),
    monotone clock -> after_epoch clock ->
    NoDup (keys (SEEN s)) ->
    Baseline.ingest clock env R req s = (Returned reply, s') ->
    code reply = 500 ->
    clock (reads s') - clock (reads s) < 24 * 60 * 60 * 1000 ->
    (exists T, Map_get (Baseline_tweetId req) (SEEN s') = Some T
               /\ clock (reads s) <= T)
    /\ forall (env2 : ProcessEnv) (R2 : Remote) (req2 : Request),
         Baseline_tweetId req2 = Baseline_tweetId req ->
         truthy (Baseline_text R2 req2) = true ->
         Baseline.ingest clock env2 R2 req2 s' =
         (Returned {| code := 200;
                      payload := [("ok", JBool true); ("duplicate", JBool true)]%string |},
          set_reads (S (reads s')) (add_calls (Baseline_resolution_calls R2 req2) s')).
Proof.
  intros clock env R req s reply s' Mono Pos D Run C500 W.
  destruct (ingest_processed clock env R req s Run) as (s2 & evs & Sn & Rd & ->).
  { rewrite C500. discriminate. }
  { intros ->. discriminate. }
  destruct (markSeen_store clock (Baseline_tweetId req) s2) as (Rd' & _ & _).
  simpl reads in W.
  assert (G : Map_get (Baseline_tweetId req)
                (SEEN (snd (markSeen clock (Baseline_tweetId req) s2)))
              = Some (clock (reads s2))).
  { apply markSeen_records; [now rewrite Sn|].
    intros k L1 L2.
    assert (clock k <= clock (reads (snd (markSeen clock (Baseline_tweetId req) s2))))
      by (apply Mono; lia).
    assert (clock (reads s) <= clock (reads s2)) by (apply Mono; lia).
    unfold TTL_MS. lia. }
  assert (Ge : clock (reads s) <= clock (reads s2)) by (apply Mono; lia).
  split.
  - exists (clock (reads s2)). split; auto.
  - intros env2 R2 req2 Same Tx.
    apply ingest_answers_duplicate with (t := clock (reads s2)); auto.
    + now rewrite Same.
    + pose proof (Pos (reads s2)). lia.
    + simpl reads. unfold TTL_MS. lia.
Qed.

Lemma failed_request_is_recorded_as_seen_witness :
  let req := post (Obj tweet_123) (Prim JUndefined) in
  let reply := failure 500 "Gemini error 500: " in
  let s' := snd (Baseline.ingest minute_clock env_configured remote_gemini_down
                   req initial_state) in
  Baseline.ingest minute_clock env_configured remote_gemini_down req initial_state
    = (Returned reply, s')
  /\ code reply = 500
  /\ minute_clock (reads s') - minute_clock (reads initial_state) < 24 * 60 * 60 * 1000
  /\ Baseline.ingest minute_clock env_configured remote_ok req s' =
     (Returned duplicate_reply,
      set_reads (S (reads s')) (add_calls (Baseline_resolution_calls remote_ok req) s')).
Proof.
  cbv zeta.
  assert (W : minute_clock
                (reads (snd (Baseline.ingest minute_clock env_configured
                               remote_gemini_down
                               (post (Obj tweet_123) (Prim JUndefined))
                               initial_state)))
              - minute_clock (reads initial_state) < 24 * 60 * 60 * 1000)
    by (vm_compute; reflexivity).
  split; [reflexivity|]. split; [reflexivity|]. split; [exact W|].
  exact (proj2 (@failed_request_is_recorded_as_seen
                  minute_clock env_configured remote_gemini_down
                  (post (Obj tweet_123) (Prim JUndefined)) initial_state _ _
                  minute_clock_monotone minute_clock_after_epoch
                  NoDup_initial eq_refl eq_refl W)
           env_configured remote_ok (post (Obj tweet_123) (Prim JUndefined))
           eq_refl eq_refl).
Defined.

(* ===================================================================== *)
(** ** The baseline handler: a mail transport that throws *)
(* ===================================================================== *)

Lemma fetchTweetText_with_sendMail o R url :
  fetchTweetText (with_sendMail o R) url = fetchTweetText R url.
Proof. reflexivity. Qed.

Lemma Baseline_text_with_sendMail o R req :
  Baseline_text (with_sendMail o R) req = Baseline_text R req.
Proof. reflexivity. Qed.

Lemma Baseline_resolution_calls_with_sendMail o R req :
  Baseline_resolution_calls (with_sendMail o R) req = Baseline_resolution_calls R req.
Proof. reflexivity. Qed.

(** A delivery that reports [pushed: true] has called the push service. *)
Lemma Baseline_deliver_pushed env R text author url s summary emailed s' :
  Baseline_deliver env R text author url s =
    (Returned (delivered summary true emailed), s') ->
  exists form, In (FetchPushover form) (calls s').
Proof.
  unfold Baseline_deliver, try_catch, bind.
  destruct (Baseline.callGeminiSummary env R text author url s)
    as [[sm|e1] s1]; [|discriminate].
  unfold Baseline.sendPushover, bind, call, await, ret.
  destruct (negb (present (PUSHOVER_API_TOKEN env))
            || negb (present (PUSHOVER_USER_KEY env))).
  - destruct (Baseline.sendEmail env R _ sm s1) as [[em|e3] s3]; discriminate.
  - match goal with
    | |- context [calls s1 ++ [?ev]] =>
        change {| SEEN := SEEN s1; reads := reads s1; calls := calls s1 ++ [ev] |}
          with (add_calls [ev] s1);
        set (push := ev)
    end.
    destruct (pushover R) as [r|e2]; [|discriminate].
    destruct (sendEmail_calls env R ("HillPulse: @" ++ to_string author) sm
                (add_calls [push] s1)) as (o3 & ev3 & E3).
    rewrite E3. destruct o3 as [em|e3]; [|discriminate].
    intros H. inversion H; subst.
    eexists. simpl. apply in_or_app. left. apply in_or_app. right.
    left. reflexivity.
Qed.

(** C7.  Take a request of the baseline variant that, with a working mail
    transport, is answered 200 with [emailed: true] (so the summary was
    produced, the push notifier ran and the transport was reached).  When the
    transport's send throws [e] instead, the same request is answered 500
    with [{ok: false, error: e.message}]; the process ends in the same
    state, so every call was made just the same, and when the answer would
    have carried [pushed: true] the call to the push service is among
    them. *)
Theorem email_exception_turns_request_into_500 :
  forall (clock : nat -> Z) (env : ProcessEnv) (R : Remote) (req : Request)
         (s : State) (summary : string) (pushed : bool) (s' : State) (e : Exn),
    Baseline.ingest clock env (with_sendMail (Returned tt) R) req s =
      (Returned {| code := 200;
                   payload := [("ok", JBool true); ("duplicate", JBool false);
                               ("summary", JStr summary); ("pushed", JBool pushed);
                               ("emailed", JBool true)]%string |}, s') ->
    Baseline.ingest clock env (with_sendMail (Threw e) R) req s =
      (Returned {| code := 500;
                   payload := [("ok", JBool false);
                               ("error", JStr (message e))]%string |}, s')
    /\ (pushed = true -> exists form, In (FetchPushover form) (calls s')).
Proof.
  intros clock env R req s summary pushed s' e.
  rewrite !ingest_steps. cbv zeta.
  rewrite !Baseline_text_with_sendMail, !Baseline_resolution_calls_with_sendMail.
  destruct (negb (truthy (Baseline_text R req))); [discriminate|].
  destruct (isSeen clock (Baseline_tweetId req)
              (add_calls (Baseline_resolution_calls R req) s))
    as [[seen|e0] s2]; [|discriminate].
  destruct (truthy seen); [discriminate|].
  intros H. split.
  - now apply Baseline_deliver_mail_failure with (summary := summary) (pushed := pushed).
  - intros ->. eapply Baseline_deliver_pushed. exact H.
Qed.

Lemma email_exception_turns_request_into_500_witness :
  let req := post (Obj tweet_123) (Prim JUndefined) in
  let s' :=
    {| SEEN := [(JStr "123", minute_clock 0)]; reads := 2;
       calls := [FetchGemini (JStr "We must pass the CR.") (JStr "repuser")
                             (JStr "https://x.com/u/status/123");
                 FetchPushover [("token", "token"); ("user", "user");
                                ("title", "HillPulse");
                                ("message", "@repuser: backs CR")]%string;
                 SendMail "relay" "staff@example.org" "HillPulse: @repuser"
                          "@repuser: backs CR"] |} in
  Baseline.ingest minute_clock env_configured
    (with_sendMail (Returned tt) remote_ok) req initial_state =
    (Returned (delivered "@repuser: backs CR" true true), s')
  /\ Baseline.ingest minute_clock env_configured
       (with_sendMail (Threw (Error "connect ECONNREFUSED")) remote_ok) req
       initial_state =
     (Returned (failure 500 "connect ECONNREFUSED"), s').
Proof.
  cbv zeta. split; [reflexivity|].
  exact (proj1 (@email_exception_turns_request_into_500
                  minute_clock env_configured remote_ok
                  (post (Obj tweet_123) (Prim JUndefined)) initial_state
                  "@repuser: backs CR" true _ (Error "connect ECONNREFUSED")
                  eq_refl)).
Defined.

(* ===================================================================== *)
(** ** The legacy [tweet] key *)
(* ===================================================================== *)

Lemma Baseline_tweet_legacy req payload :
  Baseline_tweet (with_body req {| data := Prim JUndefined; tweet := payload |}) =
  Baseline_tweet (with_body req {| data := payload; tweet := Prim JUndefined |}).
Proof.
  unfold Baseline_tweet, field_or. simpl.
  destruct (truthy_field payload) eqn:T; simpl; rewrite ?T; reflexivity.
Qed.

(** C9, as amended.  In the baseline variant a payload under the legacy
    [tweet] key is processed as the same payload under the [data] key is:
    the same answer, the same calls, the same state. *)
Theorem legacy_tweet_key_is_data_key_in_baseline :
  forall (clock : nat -> Z) (env : ProcessEnv) (R : Remote) (req : Request)
         (payload : Field) (s : State),
    Baseline.ingest clock env R
      (with_body req {| data := Prim JUndefined; tweet := payload |}) s =
    Baseline.ingest clock env R
      (with_body req {| data := payload; tweet := Prim JUndefined |}) s.
Proof.
  intros clock env R req payload s.
  rewrite !ingest_steps.
  unfold Baseline_text, Baseline_resolution_calls, needs_resolver,
    Baseline_tweetId, Baseline_author, Baseline_url.
  rewrite Baseline_tweet_legacy. reflexivity.
Qed.

(** C9 fails as stated: the hardened variant reads [body.data] only.  Tweet
    123 under [data] is summarized and pushed; under [tweet] it is answered
    400, and nothing is called. *)
Lemma legacy_tweet_key_is_ignored_in_hardened :
  Hardened.ingest env_open remote_ok
    (post (Obj tweet_123) (Prim JUndefined)) initial_state =
    (Returned {| code := 200;
                 payload := [("ok", JBool true);
                             ("summary", JStr "@repuser: backs CR");
                             ("pushed", JBool true)]%string |},
     {| SEEN := []; reads := 0;
        calls := [FetchGemini (JStr "We must pass the CR.") (JStr "repuser")
                              (JStr "https://x.com/u/status/123");
                  FetchPushover [("token", "token"); ("user", "user");
                                 ("title", "HillPulse");
                                 ("message", "@repuser: backs CR");
                                 ("url", "https://x.com/u/status/123")]%string] |})
  /\ Hardened.ingest env_open remote_ok
       (post (Prim JUndefined) (Obj tweet_123)) initial_state =
     (Returned {| code := 400;
                  payload := [("ok", JBool false);
                              ("error", JStr "Missing tweet text")]%string |},
      initial_state).
Proof. split; reflexivity. Qed.

(* ===================================================================== *)
(** ** Requests without identifier *)
(* ===================================================================== *)

Lemma lacks_identifier_unknown req :
  lacks_identifier req = true ->
  Baseline_tweetId req = JStr "unknown" /\ truthy (Baseline_url req) = false.
Proof.
  unfold lacks_identifier, Baseline_tweetId, Baseline_url, js_or. cbv zeta.
  intros H. apply andb_prop in H as [H U]. apply andb_prop in H as [A B].
  apply negb_true_iff in A, B, U. rewrite A, B, U. auto.
Qed.

(** C10 fails as stated: a first request without identifier is processed
    and marks [unknown]; a later request without identifier, and without
    text, is answered 400 and not as a duplicate. *)
Lemma anonymous_request_without_text_is_rejected :
  let first := Baseline.ingest minute_clock env_configured remote_ok
                 (post (Obj (anonymous (JStr "We must pass the CR.")))
                       (Prim JUndefined)) initial_state in
  lacks_identifier (post (Obj (anonymous (JStr "We must pass the CR.")))
                         (Prim JUndefined)) = true
  /\ lacks_identifier (post (Obj (anonymous JUndefined)) (Prim JUndefined)) = true
  /\ fst first = Returned (delivered "@repuser: backs CR" true true)
  /\ SEEN (snd first) = [(JStr "unknown", minute_clock 0)]
  /\ fst (Baseline.ingest minute_clock env_configured remote_ok
            (post (Obj (anonymous JUndefined)) (Prim JUndefined)) (snd first)) =
     Returned {| code := 400;
                 payload := [("ok", JBool false);
                             ("error", JStr "Could not retrieve tweet text")]%string |}.
Proof. repeat split. Qed.

(** C10, as amended.  In the baseline variant every request whose payload
    has none of [tweet_id], [id] and [url] is deduplicated under the one
    identifier [unknown].  After one such request was processed (answered
    neither 400 nor as a duplicate), and after any requests that followed
    it, a later such request that carries a text and is checked less than
    24 hours after the first one arrived is answered 200 with [{ok: true,
    duplicate: true}], whatever its text; it makes no call at all: no
    summary, no notification. *)
Theorem requests_without_identifier_share_unknown :
  forall (clock : nat -> Z) (env : ProcessEnv) (R1 : Remote) (req1 : Request)
         (s0 : State) (reply1 : Reply) (s1 : State)
         (between : list (Remote * Request)) (R2 : Remote) (req2 : Request),
    monotone clock -> after_epoch clock ->
    NoDup (keys (SEEN s0)) ->
    lacks_identifier req1 = true ->
    lacks_identifier req2 = true ->
    Baseline.ingest clock env R1 req1 s0 = (Returned reply1, s1) ->
    code reply1 <> 400 ->
    reply1 <> duplicate_reply ->
    truthy (prop (Baseline_tweet req2) Tweet.text) = true ->
    let s2 := run_requests clock env between s1 in
    clock (reads s2) - clock (reads s0) < 24 * 60 * 60 * 1000 ->
    Baseline_tweetId req1 = JStr "unknown"
    /\ Baseline_tweetId req2 = JStr "unknown"
    /\ Baseline.ingest clock env R2 req2 s2 =
       (Returned {| code := 200;
                    payload := [("ok", JBool true); ("duplicate", JBool true)]%string |},
        set_reads (S (reads s2)) s2).
Proof.
  intros clock env R1 req1 s0 reply1 s1 between R2 req2 Mono Pos D L1 L2 Run
    N4 Nd Tx s2 W.
  destruct (lacks_identifier_unknown req1 L1) as (Id1 & _).
  destruct (lacks_identifier_unknown req2 L2) as (Id2 & U2).
  split; [exact Id1|]. split; [exact Id2|].
  destruct (ingest_processed clock env R1 req1 s0 Run N4 Nd)
    as (sm & evs & Sn & Rd & E1).
  destruct (markSeen_store clock (Baseline_tweetId req1) sm) as (Rd' & _ & Nd').
  assert (D1 : NoDup (keys (SEEN s1))).
  { rewrite E1. simpl. apply Nd'. now rewrite Sn. }
  destruct (run_requests_store clock env between s1 D1) as (D2 & Le & Keep).
  fold s2 in D2, Le, Keep.
  assert (R1' : reads s1 = reads (snd (markSeen clock (Baseline_tweetId req1) sm)))
    by (rewrite E1; reflexivity).
  assert (Top : forall k, (k <= reads s2)%nat -> clock k <= clock (reads s2))
    by (intros; now apply Mono).
  assert (Ge : clock (reads s0) <= clock (reads sm)) by (apply Mono; lia).
  assert (G1 : Map_get (JStr "unknown") (SEEN s1) = Some (clock (reads sm))).
  { rewrite E1. simpl SEEN. rewrite <- Id1.
    apply markSeen_records; [now rewrite Sn|].
    intros k A B. specialize (Top k). unfold TTL_MS. lia. }
  assert (G2 : Map_get (JStr "unknown") (SEEN s2) = Some (clock (reads sm))).
  { apply Keep; auto.
    - pose proof (Pos (reads sm)). lia.
    - intros k A B. specialize (Top k). unfold TTL_MS. lia. }
  assert (Txt : Baseline_text R2 req2 = js_or (prop (Baseline_tweet req2) Tweet.text)
                                          (JStr EmptyString)
                /\ Baseline_resolution_calls R2 req2 = []).
  { unfold Baseline_text, Baseline_resolution_calls, needs_resolver.
    rewrite U2, andb_false_r. auto. }
  destruct Txt as (Txt & NoCalls).
  rewrite (ingest_answers_duplicate clock env R2 req2 s2 (t := clock (reads sm))).
  - now rewrite NoCalls, add_calls_nil.
  - rewrite Txt. unfold js_or. now rewrite Tx.
  - now rewrite Id2.
  - pose proof (Pos (reads sm)). lia.
  - unfold TTL_MS. lia.
Qed.

Lemma requests_without_identifier_share_unknown_witness :
  let req1 := post (Obj (anonymous (JStr "We must pass the CR."))) (Prim JUndefined) in
  let req2 := post (Prim JUndefined) (Obj (anonymous (JStr "Jeffries opposes."))) in
  let between := [(remote_ok, post (Obj tweet_123) (Prim JUndefined))] in
  let s1 := snd (Baseline.ingest minute_clock env_configured remote_ok req1
                   initial_state) in
  let s2 := run_requests minute_clock env_configured between s1 in
  Baseline.ingest minute_clock env_configured remote_ok req1 initial_state =
    (Returned (delivered "@repuser: backs CR" true true), s1)
  /\ minute_clock (reads s2) - minute_clock (reads initial_state)
     < 24 * 60 * 60 * 1000
  /\ Baseline.ingest minute_clock env_configured remote_ok req2 s2 =
     (Returned duplicate_reply, set_reads (S (reads s2)) s2).
Proof.
  cbv zeta.
  set (req1 := post (Obj (anonymous (JStr "We must pass the CR."))) (Prim JUndefined)).
  set (req2 := post (Prim JUndefined) (Obj (anonymous (JStr "Jeffries opposes.")))).
  set (between := [(remote_ok, post (Obj tweet_123) (Prim JUndefined))]).
  set (s1 := snd (Baseline.ingest minute_clock env_configured remote_ok req1
                    initial_state)).
  assert (N4 : code (delivered "@repuser: backs CR" true true) <> 400)
    by discriminate.
  assert (Nd : delivered "@repuser: backs CR" true true <> duplicate_reply)
    by discriminate.
  assert (W : minute_clock (reads (run_requests minute_clock env_configured between s1))
              - minute_clock (reads initial_state) < 24 * 60 * 60 * 1000)
    by (vm_compute; reflexivity).
  split; [reflexivity|]. split; [exact W|].
  exact (proj2 (proj2 (@requests_without_identifier_share_unknown
           minute_clock env_configured remote_ok req1 initial_state
           (delivered "@repuser: backs CR" true true) s1 between remote_ok req2
           minute_clock_monotone minute_clock_after_epoch NoDup_initial
           eq_refl eq_refl eq_refl N4 Nd eq_refl W))).
Defined.

(* ===================================================================== *)
(** ** The hardened handler: the shared secret *)
(* ===================================================================== *)

Lemma present_some (v : option string) :
  present v = true -> exists c r, v = Some (String c r).
Proof.
  destruct v as [[|c r]|]; simpl; try discriminate. eauto.
Qed.

Lemma assertAuthorized_mismatch env req :
  present (INGEST_SECRET_ env) = true ->
  X_HillPulse_Key req <> Some (Hardened.INGEST_SECRET env) ->
  X_HillPulse_Key req <> Some ("Bearer " ++ Hardened.INGEST_SECRET env)%string ->
  Authorization req <> Some (Hardened.INGEST_SECRET env) ->
  Authorization req <> Some ("Bearer " ++ Hardened.INGEST_SECRET env)%string ->
  Hardened.assertAuthorized env req = false.
Proof.
  intros P X1 X2 A1 A2. unfold Hardened.assertAuthorized.
  destruct (present_some _ P) as (c & r & E).
  assert (S : Hardened.INGEST_SECRET env = String c r)
    by (unfold Hardened.INGEST_SECRET, or_else; now rewrite P, E).
  rewrite S in *. simpl present. simpl negb. cbv iota.
  apply orb_false_iff.
  destruct (present (X_HillPulse_Key req)) eqn:PX.
  - destruct (present_some _ PX) as (c1 & r1 & EX). unfold or_else.
    rewrite PX, EX. rewrite EX in X1, X2.
    split; apply String.eqb_neq; congruence.
  - destruct (present (Authorization req)) eqn:PA.
    + destruct (present_some _ PA) as (c1 & r1 & EA). unfold or_else.
      rewrite PA, EA. rewrite EA in A1, A2.
      split; apply String.eqb_neq; congruence.
    + unfold or_else. rewrite PA. split; apply String.eqb_neq; discriminate.
Qed.

Lemma assertAuthorized_open env req :
  present (INGEST_SECRET_ env) = false -> Hardened.assertAuthorized env req = true.
Proof.
  intros P. unfold Hardened.assertAuthorized, Hardened.INGEST_SECRET, or_else.
  rewrite P. reflexivity.
Qed.

(** C8.  In the hardened variant, with a shared secret configured, a
    [POST /ingest] whose [X-HillPulse-Key] and [Authorization] headers are
    neither the secret nor [Bearer ] followed by the secret is answered 401
    with [{ok: false, error: "Unauthorized"}] and the state is untouched: no
    call is made.  With no secret configured every request is authorized,
    and no answer is a 401. *)
Theorem unauthorized_request_is_rejected :
  forall (env : ProcessEnv) (R : Remote) (req : Request) (s : State),
    (present (INGEST_SECRET_ env) = true ->
     X_HillPulse_Key req <> Some (Hardened.INGEST_SECRET env) ->
     X_HillPulse_Key req <> Some ("Bearer " ++ Hardened.INGEST_SECRET env)%string ->
     Authorization req <> Some (Hardened.INGEST_SECRET env) ->
     Authorization req <> Some ("Bearer " ++ Hardened.INGEST_SECRET env)%string ->
     Hardened.ingest env R req s =
     (Returned {| code := 401;
                  payload := [("ok", JBool false);
                              ("error", JStr "Unauthorized")]%string |}, s))
    /\ (present (INGEST_SECRET_ env) = false ->
        Hardened.assertAuthorized env req = true
        /\ forall reply s', Hardened.ingest env R req s = (Returned reply, s') ->
                            code reply <> 401).
Proof.
  intros env R req s. split.
  - intros P X1 X2 A1 A2. unfold Hardened.ingest, try_catch.
    rewrite (assertAuthorized_mismatch env req P X1 X2 A1 A2). reflexivity.
  - intros P. pose proof (assertAuthorized_open env req P) as A.
    split; [exact A|].
    intros reply s'. unfold Hardened.ingest, try_catch. rewrite A.
    change (negb true) with false. cbv iota beta zeta. unfold bind at 1.
    match goal with
    | |- context [(if ?c then fetchTweetText R ?u else ret ?t) s] =>
        destruct ((if c then fetchTweetText R u else ret t) s) as [[txt|e0] s1]
    end.
    2:{ intros H. inversion H. discriminate. }
    destruct (negb (truthy txt)).
    { intros H. inversion H. discriminate. }
    unfold bind at 1.
    match goal with
    | |- context [Hardened.callGeminiSummary env R ?t ?a ?u s1] =>
        destruct (Hardened.callGeminiSummary env R t a u s1) as [[sm|e1] s2]
    end.
    2:{ intros H. inversion H. discriminate. }
    unfold bind at 1.
    match goal with
    | |- context [Hardened.sendPushover env R ?t sm ?u s2] =>
        destruct (Hardened.sendPushover env R t sm u s2) as [[p|e2] s3]
    end; intros H; inversion H; discriminate.
Qed.

Lemma unauthorized_request_is_rejected_witness :
  present (INGEST_SECRET_ env_secret) = true
  /\ Hardened.ingest env_secret remote_ok
       {| X_HillPulse_Key := None; Authorization := Some "Bearer guess"%string;
          body := Some {| data := Obj tweet_123; tweet := Prim JUndefined |} |}
       initial_state =
     (Returned (failure 401 "Unauthorized"), initial_state)
  /\ present (INGEST_SECRET_ env_open) = false
  /\ Hardened.assertAuthorized env_open (post (Obj tweet_123) (Prim JUndefined)) = true.
Proof.
  split; [reflexivity|]. split.
  - apply (proj1 (unauthorized_request_is_rejected env_secret remote_ok
                    {| X_HillPulse_Key := None;
                       Authorization := Some "Bearer guess"%string;
                       body := Some {| data := Obj tweet_123;
                                       tweet := Prim JUndefined |} |}
                    initial_state)); [reflexivity|discriminate..].
  - split; [reflexivity|].
    exact (proj1 (proj2 (unauthorized_request_is_rejected env_open remote_ok
                           (post (Obj tweet_123) (Prim JUndefined)) initial_state)
                   eq_refl)).
Defined.


(* ===================================================================== *)
(** ** The retry loop against any remote *)
(* ===================================================================== *)

Section RetryBound.

Variable R : Remote.
Variables text author url : JsVal.

Lemma attempt_outcome k :
  (exists out, attempt_succeeded R text author url k out)
  \/ (exists e, attempt_failed R text author url k e).
Proof.
  destruct (fst (Hardened.attempt_try R text author url k initial_state))
    as [out|e] eqn:O.
  - left. exists out. intros s.
    now rewrite (attempt_try_state R text author url k s initial_state).
  - right. exists e. right. intros s.
    now rewrite (attempt_try_state R text author url k s initial_state).
Qed.

(** Whatever the remote answers, the loop ends after [n <= 4] failed
    attempts, with the calls of [retry_calls]. *)
Lemma retry_loop_any :
  exists o n, (n <= 4)%nat /\
    forall s, Hardened.retry_loop R text author url 0 None s =
              (o, add_calls (retry_calls (FetchGemini text author url) n) s).
Proof.
  assert (M : forall k, (k <= 3)%nat -> (k <= Hardened.MAX_RETRIES)%nat)
    by (unfold Hardened.MAX_RETRIES; auto).
  assert (L : forall k, (k < 3)%nat -> (k < Hardened.MAX_RETRIES)%nat)
    by (unfold Hardened.MAX_RETRIES; auto).
  destruct (attempt_outcome 0) as [(out & S0)|(e0 & F0)].
  { exists (Returned out), 0%nat. split; [lia|]. intros s.
    now rewrite (retry_loop_succeeded None s (M 0%nat ltac:(lia)) S0). }
  destruct (attempt_outcome 1) as [(out & S1)|(e1 & F1)].
  { exists (Returned out), 1%nat. split; [lia|]. intros s.
    rewrite (retry_loop_failed None s (L 0%nat ltac:(lia)) F0).
    rewrite (retry_loop_succeeded _ _ (M 1%nat ltac:(lia)) S1).
    now rewrite add_calls_app. }
  destruct (attempt_outcome 2) as [(out & S2)|(e2 & F2)].
  { exists (Returned out), 2%nat. split; [lia|]. intros s.
    rewrite (retry_loop_failed None s (L 0%nat ltac:(lia)) F0).
    rewrite (retry_loop_failed _ _ (L 1%nat ltac:(lia)) F1).
    rewrite (retry_loop_succeeded _ _ (M 2%nat ltac:(lia)) S2).
    now rewrite !add_calls_app. }
  destruct (attempt_outcome 3) as [(out & S3)|(e3 & F3)].
  { exists (Returned out), 3%nat. split; [lia|]. intros s.
    rewrite (retry_loop_failed None s (L 0%nat ltac:(lia)) F0).
    rewrite (retry_loop_failed _ _ (L 1%nat ltac:(lia)) F1).
    rewrite (retry_loop_failed _ _ (L 2%nat ltac:(lia)) F2).
    rewrite (retry_loop_succeeded _ _ (M 3%nat ltac:(lia)) S3).
    now rewrite !add_calls_app. }
  exists (Threw (Error ("Gemini failed after 4 attempts: " ++ message e3))), 4%nat.
  split; [lia|]. intros s.
  rewrite (retry_loop_failed None s (L 0%nat ltac:(lia)) F0).
  rewrite (retry_loop_failed _ _ (L 1%nat ltac:(lia)) F1).
  rewrite (retry_loop_failed _ _ (L 2%nat ltac:(lia)) F2).
  rewrite (retry_loop_failed_last _ _ F3).
  now rewrite !add_calls_app.
Qed.

End RetryBound.


(* ===================================================================== *)
(** ** The hardened handler keeps no state *)
(* ===================================================================== *)

Section HardenedFrame.

Variable env : ProcessEnv.
Variable R : Remote.

Lemma Hardened_callGeminiSummary_calls text author url :
  exists o evs, forall s,
    Hardened.callGeminiSummary env R text author url s = (o, add_calls evs s).
Proof.
  unfold Hardened.callGeminiSummary.
  destruct (negb (present (Hardened.GEMINI_KEY env))).
  - exists (Threw (Error "Missing GEMINI_API_KEY")), []. intros s.
    unfold throw. now rewrite add_calls_nil.
  - destruct (retry_loop_any R text author url) as (o & n & _ & E). eauto.
Qed.

Lemma Hardened_sendPushover_calls title msg url :
  exists o evs, forall s,
    Hardened.sendPushover env R title msg url s = (o, add_calls evs s).
Proof.
  unfold Hardened.sendPushover, bind, call, await, ret.
  destruct (negb (present (PUSHOVER_API_TOKEN env))
            || negb (present (PUSHOVER_USER_KEY env))).
  { exists (Returned false), []. intros s. now rewrite add_calls_nil. }
  destruct (pushover R) as [r|e]; do 2 eexists; intros s;
    match goal with
    | |- context [calls s ++ [?ev]] =>
        change {| SEEN := SEEN s; reads := reads s; calls := calls s ++ [ev] |}
          with (add_calls [ev] s)
    end; reflexivity.
Qed.

Lemma resolving_step_calls (c : bool) (u t : JsVal) :
  exists v evs, forall s,
    (if c then fetchTweetText R u else ret t) s = (Returned v, add_calls evs s).
Proof.
  destruct c.
  - exists (resolved R u), (resolution_calls R u). intros s.
    apply fetchTweetText_state.
  - exists t, []. intros s. unfold ret. now rewrite add_calls_nil.
Qed.

End HardenedFrame.

(** X2.  The hardened handler never lets an exception escape and keeps no
    state: for a given request and given answers of the remote services it
    gives one answer and makes the same calls from any state, so the same
    tweet sent twice is summarized and pushed twice.  The answer is one of
    401 [Unauthorized], 400 [Missing tweet text], 200 [{ok, summary,
    pushed}] and 500 with the message of the error caught. *)
Theorem Hardened_ingest_is_stateless :
  forall (env : ProcessEnv) (R : Remote) (req : Request),
  exists reply evs,
    (forall s, Hardened.ingest env R req s = (Returned reply, add_calls evs s))
    /\ (reply = failure 401 "Unauthorized"
        \/ reply = failure 400 "Missing tweet text"
        \/ (exists summary pushed, reply = summarized summary pushed)
        \/ (exists m, reply = failure 500 m)).
Proof.
  intros env R req. unfold Hardened.ingest, try_catch.
  destruct (negb (Hardened.assertAuthorized env req)).
  { exists (failure 401 "Unauthorized"), []. split; [|auto].
    intros s. unfold ret. now rewrite add_calls_nil. }
  cbv zeta. unfold bind at 1.
  match goal with
  | |- context [(if ?c then fetchTweetText R ?u else ret ?t)] =>
      destruct (resolving_step_calls R c u t) as (txt & ev0 & E0)
  end.
  destruct (negb (truthy txt)) eqn:Tx.
  { exists (failure 400 "Missing tweet text"), ev0. split; [|auto].
    intros s. rewrite E0, Tx. reflexivity. }
  match goal with
  | |- context [Hardened.callGeminiSummary env R _ ?a ?u] =>
      destruct (Hardened_callGeminiSummary_calls env R txt a u) as (o1 & ev1 & E1);
      destruct o1 as [sm|e1];
      [destruct (Hardened_sendPushover_calls env R "HillPulse" sm u)
         as (o2 & ev2 & E2)|]
  end.
  - destruct o2 as [p|e2].
    + exists (summarized sm p), (ev0 ++ ev1 ++ ev2). split; [|eauto 6].
      intros s. rewrite E0, Tx. unfold bind. rewrite E1, E2.
      now rewrite !add_calls_app.
    + exists (failure 500 (message e2)), (ev0 ++ ev1 ++ ev2). split; [|eauto 6].
      intros s. rewrite E0, Tx. unfold bind. rewrite E1, E2.
      now rewrite !add_calls_app.
  - exists (failure 500 (message e1)), (ev0 ++ ev1). split; [|eauto 6].
    intros s. rewrite E0, Tx. unfold bind. rewrite E1.
    now rewrite !add_calls_app.
Qed.

(* ===================================================================== *)
(** ** The baseline handler: its answers and what they leave behind *)
(* ===================================================================== *)

Lemma Baseline_deliver_shape env R text author url s :
  exists reply evs,
    Baseline_deliver env R text author url s = (Returned reply, add_calls evs s)
    /\ ((exists summary pushed emailed, reply = delivered summary pushed emailed)
        \/ (exists m, reply = failure 500 m)).
Proof.
  unfold Baseline_deliver, try_catch, bind.
  destruct (callGeminiSummary_calls env R text author url s) as (o1 & ev1 & E1).
  rewrite E1. destruct o1 as [summary|e]; [|unfold ret; eauto 8].
  destruct (sendPushover_calls env R "HillPulse" summary (add_calls ev1 s))
    as (o2 & ev2 & E2). rewrite E2, add_calls_app.
  destruct o2 as [pushed|e]; [|unfold ret; eauto 8].
  destruct (sendEmail_calls env R ("HillPulse: @" ++ to_string author) summary
              (add_calls (ev1 ++ ev2) s)) as (o3 & ev3 & E3).
  rewrite E3, add_calls_app.
  destruct o3 as [emailed|e]; unfold ret; [|eauto 8].
  do 2 eexists. split; [reflexivity|]. left. do 3 eexists. reflexivity.
Qed.

(** X3.  The baseline handler never lets an exception escape: every
    request gets exactly one of four answers: 400 [Could not retrieve tweet
    text], 200 [{ok: true, duplicate: true}], 200 [{ok: true, duplicate:
    false, summary, pushed, emailed}], or 500 with the message of the error
    caught. *)
Theorem Baseline_ingest_answers :
  forall (clock : nat -> Z) (env : ProcessEnv) (R : Remote) (req : Request)
         (s : State),
  exists reply s',
    Baseline.ingest clock env R req s = (Returned reply, s')
    /\ (reply = failure 400 "Could not retrieve tweet text"
        \/ reply = duplicate_reply
        \/ (exists summary pushed emailed, reply = delivered summary pushed emailed)
        \/ (exists m, reply = failure 500 m)).
Proof.
  intros clock env R req s. rewrite ingest_steps. cbv zeta.
  destruct (negb (truthy (Baseline_text R req))); [eauto 6|].
  destruct (isSeen_cases clock (Baseline_tweetId req)
              (add_calls (Baseline_resolution_calls R req) s))
    as [(t & _ & _ & _ & E)|(v & s2 & E & Fv & _)]; rewrite E.
  { simpl. eauto 6. }
  rewrite Fv.
  destruct (Baseline_deliver_shape env R (Baseline_text R req)
              (Baseline_author req) (Baseline_url req)
              (snd (markSeen clock (Baseline_tweetId req) s2)))
    as (reply & evs & D & Sh).
  rewrite D. do 2 eexists. split; [reflexivity|]. tauto.
Qed.

(** X4.  A request of the baseline variant that is answered 400, or as a
    duplicate, leaves the map of seen identifiers as it was: a rejected
    request starts no window and a duplicate does not extend one.  The only
    calls such a request makes are those of the text resolver. *)
Theorem rejected_and_duplicate_requests_keep_the_map :
  forall (clock : nat -> Z) (env : ProcessEnv) (R : Remote) (req : Request)
         (s : State) (reply : Reply) (s' : State),
    Baseline.ingest clock env R req s = (Returned reply, s') ->
    code reply = 400 \/ reply = duplicate_reply ->
    SEEN s' = SEEN s
    /\ calls s' = calls s ++ Baseline_resolution_calls R req
    /\ forallb is_resolver_call (Baseline_resolution_calls R req) = true.
Proof.
  intros clock env R req s reply s'. rewrite ingest_steps. cbv zeta.
  assert (Rs : forallb is_resolver_call (Baseline_resolution_calls R req) = true).
  { unfold Baseline_resolution_calls.
    destruct (needs_resolver req); [apply resolution_calls_resolver|reflexivity]. }
  destruct (negb (truthy (Baseline_text R req))).
  { intros E _. inversion E; subst. simpl. auto. }
  destruct (isSeen_cases clock (Baseline_tweetId req)
              (add_calls (Baseline_resolution_calls R req) s))
    as [(t & _ & _ & _ & E)|(v & s2 & E & Fv & _)]; rewrite E.
  { intros E' _. inversion E'; subst. simpl. auto. }
  rewrite Fv.
  destruct (Baseline_deliver_shape env R (Baseline_text R req)
              (Baseline_author req) (Baseline_url req)
              (snd (markSeen clock (Baseline_tweetId req) s2)))
    as (reply' & evs & D & [(sm & p & em & ->)|(m & ->)]);
    rewrite D; intros E' [C|C]; inversion E'; subst; discriminate.
Qed.

Lemma rejected_and_duplicate_requests_keep_the_map_witness :
  let req := post (Obj tweet_123) (Prim JUndefined) in
  Baseline.ingest minute_clock env_configured remote_ok req seen_123 =
    (Returned duplicate_reply, set_reads 2 seen_123)
  /\ (code duplicate_reply = 400 \/ duplicate_reply = duplicate_reply)
  /\ SEEN (set_reads 2 seen_123) = [(JStr "123", minute_clock 0)].
Proof.
  cbv zeta. split; [reflexivity|]. split; [right; reflexivity|].
  exact (proj1 (@rejected_and_duplicate_requests_keep_the_map
                  minute_clock env_configured remote_ok
                  (post (Obj tweet_123) (Prim JUndefined)) seen_123
                  duplicate_reply (set_reads 2 seen_123) eq_refl
                  (or_intror eq_refl))).
Defined.

(** X5.  Duplicate suppression across requests.  In the baseline variant,
    once a request was processed (answered neither 400 nor as a duplicate),
    any later request for the same identifier whose text is non-empty after
    resolving, and which is checked less than 24 hours after the first one
    arrived, is answered 200 [{ok: true, duplicate: true}], whatever
    requests came in between; it makes no call besides those of the text
    resolver. *)
Theorem processed_identifier_is_suppressed_for_24h :
  forall (clock : nat -> Z) (env : ProcessEnv) (R1 : Remote) (req1 : Request)
         (s0 : State) (reply1 : Reply) (s1 : State)
         (between : list (Remote * Request)) (R2 : Remote) (req2 : Request),
    monotone clock -> after_epoch clock ->
    NoDup (keys (SEEN s0)) ->
    Baseline.ingest clock env R1 req1 s0 = (Returned reply1, s1) ->
    code reply1 <> 400 ->
    reply1 <> duplicate_reply ->
    Baseline_tweetId req2 = Baseline_tweetId req1 ->
    truthy (Baseline_text R2 req2) = true ->
    let s2 := run_requests clock env between s1 in
    clock (reads s2) - clock (reads s0) < 24 * 60 * 60 * 1000 ->
    Baseline.ingest clock env R2 req2 s2 =
    (Returned {| code := 200;
                 payload := [("ok", JBool true); ("duplicate", JBool true)]%string |},
     set_reads (S (reads s2)) (add_calls (Baseline_resolution_calls R2 req2) s2)).
Proof.
  intros clock env R1 req1 s0 reply1 s1 between R2 req2 Mono Pos D Run
    N4 Nd Same Tx s2 W.
  destruct (ingest_processed clock env R1 req1 s0 Run N4 Nd)
    as (sm & evs & Sn & Rd & E1).
  destruct (markSeen_store clock (Baseline_tweetId req1) sm) as (Rd' & _ & Nd').
  assert (D1 : NoDup (keys (SEEN s1))).
  { rewrite E1. simpl. apply Nd'. now rewrite Sn. }
  destruct (run_requests_store clock env between s1 D1) as (D2 & Le & Keep).
  fold s2 in D2, Le, Keep.
  assert (R1' : reads s1 = reads (snd (markSeen clock (Baseline_tweetId req1) sm)))
    by (rewrite E1; reflexivity).
  assert (Top : forall k, (k <= reads s2)%nat -> clock k <= clock (reads s2))
    by (intros; now apply Mono).
  assert (Ge : clock (reads s0) <= clock (reads sm)) by (apply Mono; lia).
  assert (G1 : Map_get (Baseline_tweetId req1) (SEEN s1) = Some (clock (reads sm))).
  { rewrite E1. simpl SEEN.
    apply markSeen_records; [now rewrite Sn|].
    intros k A B. specialize (Top k). unfold TTL_MS. lia. }
  assert (G2 : Map_get (Baseline_tweetId req1) (SEEN s2) = Some (clock (reads sm))).
  { apply Keep; auto.
    - pose proof (Pos (reads sm)). lia.
    - intros k A B. specialize (Top k). unfold TTL_MS. lia. }
  apply ingest_answers_duplicate with (t := clock (reads sm)); auto.
  - now rewrite Same.
  - pose proof (Pos (reads sm)). lia.
  - unfold TTL_MS. lia.
Qed.

Lemma processed_identifier_is_suppressed_for_24h_witness :
  let req := post (Obj tweet_123) (Prim JUndefined) in
  let between :=
    [(remote_ok, post (Obj (anonymous (JStr "Jeffries opposes."))) (Prim JUndefined))] in
  let s1 := snd (Baseline.ingest minute_clock env_configured remote_ok req
                   initial_state) in
  let s2 := run_requests minute_clock env_configured between s1 in
  Baseline.ingest minute_clock env_configured remote_ok req initial_state =
    (Returned (delivered "@repuser: backs CR" true true), s1)
  /\ minute_clock (reads s2) - minute_clock (reads initial_state)
     < 24 * 60 * 60 * 1000
  /\ Baseline.ingest minute_clock env_configured remote_gemini_down req s2 =
     (Returned duplicate_reply, set_reads (S (reads s2)) s2).
Proof.
  cbv zeta.
  set (req := post (Obj tweet_123) (Prim JUndefined)).
  set (between :=
    [(remote_ok, post (Obj (anonymous (JStr "Jeffries opposes."))) (Prim JUndefined))]).
  set (s1 := snd (Baseline.ingest minute_clock env_configured remote_ok req
                    initial_state)).
  assert (N4 : code (delivered "@repuser: backs CR" true true) <> 400)
    by discriminate.
  assert (Nd : delivered "@repuser: backs CR" true true <> duplicate_reply)
    by discriminate.
  assert (W : minute_clock (reads (run_requests minute_clock env_configured between s1))
              - minute_clock (reads initial_state) < 24 * 60 * 60 * 1000)
    by (vm_compute; reflexivity).
  split; [reflexivity|]. split; [exact W|].
  exact (@processed_identifier_is_suppressed_for_24h
           minute_clock env_configured remote_ok req initial_state
           (delivered "@repuser: backs CR" true true) s1 between
           remote_gemini_down req
           minute_clock_monotone minute_clock_after_epoch NoDup_initial
           eq_refl N4 Nd eq_refl eq_refl W).
Defined.

(** X6.  Expiry.  In the baseline variant a request with text whose
    identifier has an entry, with a time other than 0, that is 24 hours old
    or older (the boundary included) is not a duplicate: it is processed
    again, answered with a delivery or a 500, and the entry is replaced by
    the time [markSeen] reads for this request, provided the clock does not
    advance by more than 24 hours while [markSeen] runs (its loop would
    delete the new entry as well). *)
Theorem expired_identifier_is_processed_again :
  forall (clock : nat -> Z) (env : ProcessEnv) (R : Remote) (req : Request)
         (s : State) (t : Z) (reply : Reply) (s' : State),
    monotone clock ->
    NoDup (keys (SEEN s)) ->
    truthy (Baseline_text R req) = true ->
    Map_get (Baseline_tweetId req) (SEEN s) = Some t ->
    t <> 0 ->
    24 * 60 * 60 * 1000 <= clock (reads s) - t ->
    Baseline.ingest clock env R req s = (Returned reply, s') ->
    clock (reads s') - clock (S (reads s)) <= 24 * 60 * 60 * 1000 ->
    ((exists summary pushed emailed, reply = delivered summary pushed emailed)
     \/ (exists m, reply = failure 500 m))
    /\ Map_get (Baseline_tweetId req) (SEEN s') = Some (clock (S (reads s))).
Proof.
  intros clock env R req s t reply s' Mono D Tx G N Old.
  rewrite ingest_steps. cbv zeta. rewrite Tx. change (negb true) with false.
  cbv iota. rewrite isSeen_unfold. simpl SEEN. rewrite G.
  replace (truthy (JNum t)) with true
    by (simpl; symmetry; apply negb_true_iff, Z.eqb_neq; auto).
  simpl reads. replace (clock (reads s) - t <? TTL_MS) with false
    by (symmetry; apply Z.ltb_ge; unfold TTL_MS; lia).
  change (truthy (JBool false)) with false. cbv iota.
  set (s2 := set_reads (S (reads s)) (add_calls (Baseline_resolution_calls R req) s)).
  destruct (Baseline_deliver_shape env R (Baseline_text R req)
              (Baseline_author req) (Baseline_url req)
              (snd (markSeen clock (Baseline_tweetId req) s2)))
    as (reply' & evs & Dl & Sh).
  rewrite Dl. intros E W. inversion E; subst. split; [exact Sh|].
  simpl SEEN. simpl reads in W.
  assert (R2 : reads s2 = S (reads s)) by reflexivity.
  rewrite <- R2. apply markSeen_records; [exact D|].
  intros k L1 L2.
  assert (clock k <= clock (reads (snd (markSeen clock (Baseline_tweetId req) s2))))
    by (apply Mono; lia).
  rewrite R2. unfold TTL_MS. lia.
Qed.

Lemma expired_identifier_is_processed_again_witness :
  let req := post (Obj tweet_123) (Prim JUndefined) in
  let s' := snd (Baseline.ingest minute_clock env_configured remote_ok req
                   seen_123_a_day_ago) in
  Map_get (Baseline_tweetId req) (SEEN seen_123_a_day_ago)
    = Some (minute_clock 0 - 24 * 60 * 60 * 1000)
  /\ 24 * 60 * 60 * 1000
     <= minute_clock (reads seen_123_a_day_ago)
        - (minute_clock 0 - 24 * 60 * 60 * 1000)
  /\ Baseline.ingest minute_clock env_configured remote_ok req seen_123_a_day_ago
     = (Returned (delivered "@repuser: backs CR" true true), s')
  /\ Map_get (Baseline_tweetId req) (SEEN s') = Some (minute_clock 1).
Proof.
  cbv zeta.
  assert (N : minute_clock 0 - 24 * 60 * 60 * 1000 <> 0) by (vm_compute; discriminate).
  assert (Old : 24 * 60 * 60 * 1000
                <= minute_clock (reads seen_123_a_day_ago)
                   - (minute_clock 0 - 24 * 60 * 60 * 1000))
    by (vm_compute; discriminate).
  assert (W : minute_clock
                (reads (snd (Baseline.ingest minute_clock env_configured remote_ok
                               (post (Obj tweet_123) (Prim JUndefined))
                               seen_123_a_day_ago)))
              - minute_clock (S (reads seen_123_a_day_ago)) <= 24 * 60 * 60 * 1000)
    by (vm_compute; discriminate).
  assert (D : NoDup (keys (SEEN seen_123_a_day_ago)))
    by (repeat constructor; simpl; tauto).
  split; [reflexivity|]. split; [exact Old|]. split; [reflexivity|].
  exact (proj2 (@expired_identifier_is_processed_again
                  minute_clock env_configured remote_ok
                  (post (Obj tweet_123) (Prim JUndefined)) seen_123_a_day_ago
                  _ _ _ minute_clock_monotone D eq_refl eq_refl N Old eq_refl W)).
Defined.

(* ===================================================================== *)
(** ** A process without API key *)
(* ===================================================================== *)

(** X7.  Without [GEMINI_API_KEY] the baseline handler answers every
    request that passes the text and duplicate checks with 500 [Missing
    GEMINI_API_KEY]: no call to the generative-text API or to a notifier is
    made, yet the identifier was already marked as seen. *)
Theorem Baseline_missing_key_is_500_after_marking :
  forall (clock : nat -> Z) (env : ProcessEnv) (R : Remote) (req : Request)
         (s : State) (reply : Reply) (s' : State),
    present (GEMINI_API_KEY env) = false ->
    Baseline.ingest clock env R req s = (Returned reply, s') ->
    code reply <> 400 ->
    reply <> duplicate_reply ->
    reply = failure 500 "Missing GEMINI_API_KEY"
    /\ calls s' = calls s ++ Baseline_resolution_calls R req
    /\ exists s2, SEEN s2 = SEEN s
                  /\ SEEN s' = SEEN (snd (markSeen clock (Baseline_tweetId req) s2)).
Proof.
  intros clock env R req s reply s' K. rewrite ingest_steps. cbv zeta.
  destruct (negb (truthy (Baseline_text R req))).
  { intros E N4 _. inversion E; subst. now destruct N4. }
  destruct (isSeen_cases clock (Baseline_tweetId req)
              (add_calls (Baseline_resolution_calls R req) s))
    as [(t & _ & _ & _ & E)|(v & s2 & E & Fv & Sn & Ca & _)]; rewrite E.
  { intros E' _ Nd. inversion E'; subst. now destruct Nd. }
  rewrite Fv. destruct (markSeen_store clock (Baseline_tweetId req) s2) as (_ & Ca' & _).
  unfold Baseline_deliver, try_catch, bind, Baseline.callGeminiSummary,
    Baseline.GEMINI_KEY. rewrite K. simpl.
  intros E' _ _. inversion E'; subst. split; [reflexivity|].
  split; [now rewrite Ca', Ca|]. exists s2. auto.
Qed.

Lemma Baseline_missing_key_is_500_after_marking_witness :
  let req := post (Obj tweet_123) (Prim JUndefined) in
  let s' := {| SEEN := [(JStr "123", minute_clock 0)]; reads := 2; calls := [] |} in
  present (GEMINI_API_KEY env_without_key) = false
  /\ Baseline.ingest minute_clock env_without_key remote_ok req initial_state =
     (Returned (failure 500 "Missing GEMINI_API_KEY"), s')
  /\ calls s' = calls initial_state ++ Baseline_resolution_calls remote_ok req.
Proof.
  cbv zeta.
  assert (N4 : code (failure 500 "Missing GEMINI_API_KEY") <> 400) by discriminate.
  assert (Nd : failure 500 "Missing GEMINI_API_KEY" <> duplicate_reply)
    by discriminate.
  split; [reflexivity|]. split; [reflexivity|].
  exact (proj1 (proj2 (@Baseline_missing_key_is_500_after_marking
           minute_clock env_without_key remote_ok
           (post (Obj tweet_123) (Prim JUndefined)) initial_state _ _
           eq_refl eq_refl N4 Nd))).
Defined.

(** X8.  Without [GEMINI_API_KEY] the hardened handler answers every
    authorized request that has a text with 500 [Missing GEMINI_API_KEY];
    the only calls made are those of the text resolver: the retry loop is
    not entered. *)
Theorem Hardened_missing_key_is_500 :
  forall (env : ProcessEnv) (R : Remote) (req : Request) (s : State)
         (reply : Reply) (s' : State),
    present (GEMINI_API_KEY env) = false ->
    Hardened.ingest env R req s = (Returned reply, s') ->
    code reply <> 401 ->
    code reply <> 400 ->
    reply = failure 500 "Missing GEMINI_API_KEY"
    /\ exists evs, s' = add_calls evs s /\ forallb is_resolver_call evs = true.
Proof.
  intros env R req s reply s' K. unfold Hardened.ingest, try_catch.
  destruct (negb (Hardened.assertAuthorized env req)).
  { intros E N1 _. inversion E; subst. now destruct N1. }
  cbv zeta. unfold bind at 1.
  match goal with
  | |- context [(if ?c then fetchTweetText R ?u else ret ?t) s] =>
      assert (E0 : exists txt evs,
                 (if c then fetchTweetText R u else ret t) s
                 = (Returned txt, add_calls evs s)
                 /\ forallb is_resolver_call evs = true);
      [destruct c;
       [exists (resolved R u), (resolution_calls R u); split;
        [apply fetchTweetText_state|apply resolution_calls_resolver]
       |exists t, []; split; [unfold ret; now rewrite add_calls_nil|reflexivity]]
      |destruct E0 as (txt & evs & E0 & Rs); rewrite E0]
  end.
  destruct (negb (truthy txt)).
  { intros E _ N4. inversion E; subst. now destruct N4. }
  unfold bind, Hardened.callGeminiSummary, Hardened.GEMINI_KEY. rewrite K. simpl.
  intros E _ _. inversion E; subst. split; [reflexivity|]. eauto.
Qed.

Lemma Hardened_missing_key_is_500_witness :
  present (GEMINI_API_KEY env_without_key) = false
  /\ Hardened.ingest env_without_key remote_ok
       (post (Obj tweet_123) (Prim JUndefined)) initial_state =
     (Returned (failure 500 "Missing GEMINI_API_KEY"), initial_state)
  /\ exists evs, initial_state = add_calls evs initial_state
                 /\ forallb is_resolver_call evs = true.
Proof.
  assert (N1 : code (failure 500 "Missing GEMINI_API_KEY") <> 401) by discriminate.
  assert (N4 : code (failure 500 "Missing GEMINI_API_KEY") <> 400) by discriminate.
  split; [reflexivity|]. split; [reflexivity|].
  exact (proj2 (@Hardened_missing_key_is_500 env_without_key remote_ok
                  (post (Obj tweet_123) (Prim JUndefined)) initial_state
                  (failure 500 "Missing GEMINI_API_KEY") initial_state
                  eq_refl eq_refl N1 N4)).
Defined.

(* ===================================================================== *)
(** ** The calls of a delivery, in order *)
(* ===================================================================== *)

Section DeliverySteps.

Variable env : ProcessEnv.
Variable R : Remote.




End DeliverySteps.



(** X10.  The baseline summarizer does not retry.  When the
    generative-text API answers a request that passed the text and
    duplicate checks with a non-success status, the request is answered 500
    with [Gemini error <status>: <body>] after one fetch, and no notifier is
    called. *)
Theorem Baseline_gemini_error_is_500_without_retry :
  forall (clock : nat -> Z) (env : ProcessEnv) (R : Remote) (req : Request)
         (s : State) (reply : Reply) (s' : State) (res : HttpResponse),
    present (GEMINI_API_KEY env) = true ->
    gemini R 0 = Returned res ->
    ok res = false ->
    Baseline.ingest clock env R req s = (Returned reply, s') ->
    code reply <> 400 ->
    reply <> duplicate_reply ->
    reply = failure 500 ("Gemini error " ++ Z_to_string (status res) ++ ": "
                           ++ text_or_empty res)
    /\ calls s' =
       calls s ++ Baseline_resolution_calls R req
       ++ [FetchGemini (Baseline_text R req) (Baseline_author req) (Baseline_url req)].
Proof.
  intros clock env R req s reply s' res K G Nok. rewrite ingest_steps. cbv zeta.
  destruct (negb (truthy (Baseline_text R req))).
  { intros E N4 _. inversion E; subst. now destruct N4. }
  destruct (isSeen_cases clock (Baseline_tweetId req)
              (add_calls (Baseline_resolution_calls R req) s))
    as [(t & _ & _ & _ & E)|(v & s2 & E & Fv & Sn & Ca & _)]; rewrite E.
  { intros E' _ Nd. inversion E'; subst. now destruct Nd. }
  rewrite Fv. destruct (markSeen_store clock (Baseline_tweetId req) s2) as (_ & Ca' & _).
  unfold Baseline_deliver, try_catch, bind, Baseline.callGeminiSummary,
    Baseline.GEMINI_KEY, bind, call, await, throw.
  rewrite K, G. simpl negb. cbv iota. rewrite Nok. simpl negb. cbv iota.
  intros E' _ _. inversion E'; subst. split; [reflexivity|].
  simpl calls. rewrite Ca', Ca. simpl. now rewrite <- app_assoc.
Qed.

Lemma Baseline_gemini_error_is_500_without_retry_witness :
  let req := post (Obj tweet_123) (Prim JUndefined) in
  let s' := snd (Baseline.ingest minute_clock env_configured remote_gemini_down req
                   initial_state) in
  present (GEMINI_API_KEY env_configured) = true
  /\ Baseline.ingest minute_clock env_configured remote_gemini_down req
       initial_state = (Returned (failure 500 "Gemini error 500: "), s')
  /\ calls s' = [FetchGemini (JStr "We must pass the CR.") (JStr "repuser")
                             (JStr "https://x.com/u/status/123")].
Proof.
  cbv zeta.
  assert (N4 : code (failure 500 "Gemini error 500: ") <> 400) by discriminate.
  assert (Nd : failure 500 "Gemini error 500: " <> duplicate_reply) by discriminate.
  split; [reflexivity|]. split; [reflexivity|].
  exact (proj2 (@Baseline_gemini_error_is_500_without_retry
                  minute_clock env_configured remote_gemini_down
                  (post (Obj tweet_123) (Prim JUndefined)) initial_state _ _ _
                  eq_refl eq_refl eq_refl eq_refl N4 Nd)).
Defined.

(* ===================================================================== *)
(** ** The text resolver never throws *)
(* ===================================================================== *)


(* ===================================================================== *)
(** ** The hardened handler: a push service that fails *)
(* ===================================================================== *)

Lemma retry_loop_same_gemini R1 R2 text author url :
  (forall n, gemini R1 n = gemini R2 n) ->
  forall m k lastErr s,
    (4 - k = m)%nat ->
    Hardened.retry_loop R1 text author url k lastErr s =
    Hardened.retry_loop R2 text author url k lastErr s.
Proof.
  intros Same.
  assert (A : forall n s, Hardened.attempt_try R1 text author url n s =
                          Hardened.attempt_try R2 text author url n s).
  { intros n s. unfold Hardened.attempt_try, bind, call, await.
    now rewrite Same. }
  induction m as [|m IH]; intros k lastErr s E.
  - rewrite !retry_loop_exhausted by (unfold Hardened.MAX_RETRIES; lia).
    reflexivity.
  - rewrite !retry_loop_step by (unfold Hardened.MAX_RETRIES; lia).
    rewrite A.
    destruct (Hardened.attempt_try R2 text author url k s) as [[out|err] s1];
      [reflexivity|].
    destruct (Hardened.backoff (S k) s1) as [[[]|e] s2]; [|reflexivity].
    apply IH. lia.
Qed.

Lemma Hardened_callGeminiSummary_with_pushover env o R text author url s :
  Hardened.callGeminiSummary env (with_pushover o R) text author url s =
  Hardened.callGeminiSummary env R text author url s.
Proof.
  unfold Hardened.callGeminiSummary.
  destruct (negb (present (Hardened.GEMINI_KEY env))); [reflexivity|].
  now apply retry_loop_same_gemini with (m := 4%nat).
Qed.

Lemma fetchTweetText_with_pushover o R url :
  fetchTweetText (with_pushover o R) url = fetchTweetText R url.
Proof. reflexivity. Qed.

(** The hardened handler as its steps. *)
Lemma Hardened_ingest_steps env R req s :
  Hardened.ingest env R req s =
  if negb (Hardened.assertAuthorized env req)
  then (Returned (failure 401 "Unauthorized"), s)
  else
    match Hardened_resolve R req s with
    | (Threw e, s1) => (Returned (failure 500 (message e)), s1)
    | (Returned txt, s1) =>
        if negb (truthy txt)
        then (Returned (failure 400 "Missing tweet text"), s1)
        else
          match Hardened.callGeminiSummary env R txt (Hardened_author req)
                  (Hardened_url req) s1 with
          | (Threw e, s2) => (Returned (failure 500 (message e)), s2)
          | (Returned summary, s2) =>
              match Hardened.sendPushover env R "HillPulse" summary
                      (Hardened_url req) s2 with
              | (Threw e, s3) => (Returned (failure 500 (message e)), s3)
              | (Returned pushed, s3) => (Returned (summarized summary pushed), s3)
              end
          end
    end.
Proof.
  unfold Hardened.ingest, try_catch.
  destruct (negb (Hardened.assertAuthorized env req)); [reflexivity|].
  cbv zeta. fold (Hardened_tweet req). fold (Hardened_url req).
  fold (Hardened_author req).
  change (if negb (truthy (js_or (prop (Hardened_tweet req) Tweet.text)
                                 (JStr EmptyString)))
             && truthy (Hardened_url req)
          then fetchTweetText R (Hardened_url req)
          else ret (js_or (prop (Hardened_tweet req) Tweet.text) (JStr EmptyString)))
    with (Hardened_resolve R req).
  unfold bind at 1.
  destruct (Hardened_resolve R req s) as [[txt|e0] s1]; [|reflexivity].
  destruct (negb (truthy txt)); [reflexivity|].
  unfold bind at 1.
  destruct (Hardened.callGeminiSummary env R txt (Hardened_author req)
              (Hardened_url req) s1) as [[sm|e1] s2]; [|reflexivity].
  unfold bind at 1.
  destruct (Hardened.sendPushover env R "HillPulse" sm (Hardened_url req) s2)
    as [[p|e2] s3]; reflexivity.
Qed.

(** X12.  In the hardened variant the answer [pushed] is the success
    status of the push service, and a push fetch that is rejected is not
    swallowed: a request that is answered 200 with [pushed: true] when the
    push service answers is, with the same calls made, answered 200 with
    [pushed: false] when the push service answers a non-success status, and
    500 with the message of the error when the push fetch is rejected, the
    summary produced being lost. *)
Theorem push_rejection_turns_request_into_500 :
  forall (env : ProcessEnv) (R : Remote) (req : Request) (s : State)
         (r : HttpResponse) (summary : string) (s' : State),
    Hardened.ingest env (with_pushover (Returned r) R) req s =
      (Returned (summarized summary true), s') ->
    (forall e, Hardened.ingest env (with_pushover (Threw e) R) req s =
               (Returned (failure 500 (message e)), s'))
    /\ (forall r', ok r' = false ->
                   Hardened.ingest env (with_pushover (Returned r') R) req s =
                   (Returned (summarized summary false), s')).
Proof.
  intros env R req s r summary s'.
  assert (Rs : forall o, Hardened_resolve (with_pushover o R) req
                         = Hardened_resolve R req) by reflexivity.
  assert (St : forall o,
    Hardened.ingest env (with_pushover o R) req s =
    if negb (Hardened.assertAuthorized env req)
    then (Returned (failure 401 "Unauthorized"), s)
    else
      match Hardened_resolve R req s with
      | (Threw e, s1) => (Returned (failure 500 (message e)), s1)
      | (Returned txt, s1) =>
          if negb (truthy txt)
          then (Returned (failure 400 "Missing tweet text"), s1)
          else
            match Hardened.callGeminiSummary env R txt (Hardened_author req)
                    (Hardened_url req) s1 with
            | (Threw e, s2) => (Returned (failure 500 (message e)), s2)
            | (Returned summary, s2) =>
                match Hardened.sendPushover env (with_pushover o R) "HillPulse"
                        summary (Hardened_url req) s2 with
                | (Threw e, s3) => (Returned (failure 500 (message e)), s3)
                | (Returned pushed, s3) =>
                    (Returned (summarized summary pushed), s3)
                end
            end
      end).
  { intros o. rewrite Hardened_ingest_steps, Rs.
    destruct (negb (Hardened.assertAuthorized env req)); [reflexivity|].
    destruct (Hardened_resolve R req s) as [[txt|e0] s1]; [|reflexivity].
    destruct (negb (truthy txt)); [reflexivity|].
    now rewrite Hardened_callGeminiSummary_with_pushover. }
  rewrite St. intros H. split; [intros e|intros r' Nok]; rewrite St; revert H;
    (destruct (negb (Hardened.assertAuthorized env req)); [discriminate|]);
    (destruct (Hardened_resolve R req s) as [[txt|e0] s1]; [|discriminate]);
    (destruct (negb (truthy txt)); [discriminate|]);
    (destruct (Hardened.callGeminiSummary env R txt (Hardened_author req)
                 (Hardened_url req) s1) as [[sm|e1] s2]; [|discriminate]);
    unfold Hardened.sendPushover, bind, call, await, ret;
    (destruct (negb (present (PUSHOVER_API_TOKEN env))
               || negb (present (PUSHOVER_USER_KEY env))); [discriminate|]);
    simpl pushover; intros H; inversion H; subst.
  - reflexivity.
  - now rewrite Nok.
Qed.

Lemma push_rejection_turns_request_into_500_witness :
  let req := post (Obj tweet_123) (Prim JUndefined) in
  let s' := snd (Hardened.ingest env_open remote_ok req initial_state) in
  Hardened.ingest env_open
    (with_pushover (respond 200 (ParsedWith JUndefined)) remote_ok) req initial_state =
    (Returned (summarized "@repuser: backs CR" true), s')
  /\ Hardened.ingest env_open
       (with_pushover (Threw (TypeError "fetch failed")) remote_ok) req
       initial_state =
     (Returned (failure 500 "fetch failed"), s').
Proof.
  cbv zeta. split; [reflexivity|].
  exact (proj1 (@push_rejection_turns_request_into_500 env_open remote_ok
                  (post (Obj tweet_123) (Prim JUndefined)) initial_state
                  {| status := 200; body_text := Returned EmptyString;
                     body_json := Returned (ParsedWith JUndefined) |}
                  "@repuser: backs CR" _ eq_refl)
           (TypeError "fetch failed")).
Defined.

(* ===================================================================== *)
(** ** What [markSeen] leaves in the map *)
(* ===================================================================== *)

Lemma Map_delete_first_entry k t kept rest :
  ~ In k (keys kept) ->
  Map_delete k (kept ++ (k, t) :: rest) = kept ++ rest.
Proof.
  induction kept as [|[k0 t0] kept IH]; simpl; intros N.
  - now rewrite sameValueZero_refl.
  - rewrite sameValueZero_neq by (intros ->; tauto).
    f_equal. apply IH. tauto.
Qed.

(** The loop keeps, in their order, the entries it visits at a reading no
    more than [TTL_MS] after their time, and deletes the others. *)
Lemma prune_keeps_the_fresh clock es : forall kept s,
  SEEN s = kept ++ es ->
  NoDup (keys (SEEN s)) ->
  exists kept',
    SEEN (snd (prune clock es s)) = kept ++ kept'
    /\ incl kept' es
    /\ forall k t, In (k, t) kept' ->
         exists r, (reads s <= r)%nat /\ clock r - t <= TTL_MS.
Proof.
  induction es as [|[k t] rest IH]; intros kept s E D.
  - rewrite prune_nil. exists []. simpl. repeat split; auto.
    + apply incl_refl.
    + intros k t [].
  - rewrite prune_cons.
    assert (Nk : ~ In k (keys kept)).
    { rewrite E in D. unfold keys in D. rewrite map_app in D. simpl in D.
      apply NoDup_remove_2 in D. intros I. apply D. apply in_or_app. now left. }
    destruct (clock (reads s) - t >? TTL_MS) eqn:C.
    + destruct (IH kept (set_SEEN (Map_delete k (SEEN s)) (set_reads (S (reads s)) s)))
        as (kept' & E' & I' & B').
      * simpl. rewrite E. now apply Map_delete_first_entry.
      * simpl. now apply Map_delete_NoDup.
      * exists kept'. split; [exact E'|]. split.
        -- intros x Hx. right. now apply I'.
        -- intros k' t' Hin. destruct (B' k' t' Hin) as (r & Lr & Br).
           exists r. simpl in Lr. split; [lia|exact Br].
    + destruct (IH (kept ++ [(k, t)]) (set_reads (S (reads s)) s))
        as (kept' & E' & I' & B').
      * simpl. rewrite E, <- app_assoc. reflexivity.
      * exact D.
      * exists ((k, t) :: kept'). split.
        -- rewrite E', <- app_assoc. reflexivity.
        -- split.
           ++ intros x [<-|Hx]; [now left|right; now apply I'].
           ++ intros k' t' [Eq|Hin].
              ** inversion Eq; subst. exists (reads s). split; [lia|].
                 rewrite Z.gtb_ltb in C. apply Z.ltb_ge in C. exact C.
              ** destruct (B' k' t' Hin) as (r & Lr & Br).
                 exists r. simpl in Lr. split; [lia|exact Br].
Qed.

(** X13.  On a clock that never goes back, [markSeen] leaves no stale
    entry behind: every entry of the map after [markSeen(id)] is either the
    entry of [id], holding the time just read, or an entry the map had
    before, unchanged, whose time is at most 24 hours before that reading.
    No key occurs twice. *)
Theorem markSeen_leaves_no_stale_entry :
  forall (clock : nat -> Z) (id : JsVal) (s : State),
    monotone clock ->
    NoDup (keys (SEEN s)) ->
    let s' := snd (markSeen clock id s) in
    NoDup (keys (SEEN s'))
    /\ forall k t, In (k, t) (SEEN s') ->
         clock (reads s) - t <= 24 * 60 * 60 * 1000
         /\ ((k = id /\ t = clock (reads s)) \/ (k <> id /\ In (k, t) (SEEN s))).
Proof.
  intros clock id s Mono D. cbv zeta.
  destruct (markSeen_store clock id s) as (_ & _ & Nd).
  split; [now apply Nd|].
  rewrite markSeen_unfold. cbv zeta.
  set (s1 := set_SEEN (Map_set id (clock (reads s)) (SEEN s)) (set_reads (S (reads s)) s)).
  assert (D1 : NoDup (keys (SEEN s1))) by (simpl; now apply Map_set_NoDup).
  destruct (prune_keeps_the_fresh clock (SEEN s1) [] s1 eq_refl D1)
    as (kept' & E' & I' & B').
  rewrite E'. simpl app. intros k t Hin. split.
  - destruct (B' k t Hin) as (r & Lr & Br).
    assert (clock (reads s) <= clock r) by (apply Mono; simpl in Lr; lia).
    unfold TTL_MS in Br. lia.
  - apply I' in Hin. simpl in Hin.
    assert (G : Map_get k (Map_set id (clock (reads s)) (SEEN s)) = Some t)
      by (apply Map_get_in; auto).
    destruct (JsVal_eq_dec k id) as [->|N].
    + left. rewrite Map_get_set_same in G. split; congruence.
    + right. split; [exact N|].
      clear - Hin N. induction (SEEN s) as [|[k0 t0] m IH]; simpl in Hin.
      * destruct Hin as [Eq|[]]. inversion Eq. congruence.
      * destruct (sameValueZero id k0) eqn:Sv.
        -- apply sameValueZero_eq in Sv. subst k0.
           destruct Hin as [Eq|Hin]; [inversion Eq; congruence|now right].
        -- destruct Hin as [Eq|Hin]; [now left|right; now apply IH].
Qed.

Lemma markSeen_leaves_no_stale_entry_witness :
  monotone minute_clock
  /\ NoDup (keys (SEEN seen_stale_and_fresh))
  /\ SEEN (snd (markSeen minute_clock (JStr "123") seen_stale_and_fresh)) =
     [(JStr "fresh", minute_clock 0 - 1); (JStr "123", minute_clock 0)]
  /\ forall k t,
       In (k, t) (SEEN (snd (markSeen minute_clock (JStr "123") seen_stale_and_fresh))) ->
       minute_clock (reads seen_stale_and_fresh) - t <= 24 * 60 * 60 * 1000
       /\ ((k = JStr "123" /\ t = minute_clock (reads seen_stale_and_fresh))
           \/ (k <> JStr "123" /\ In (k, t) (SEEN seen_stale_and_fresh))).
Proof.
  assert (D : NoDup (keys (SEEN seen_stale_and_fresh))).
  { repeat constructor; simpl; intuition discriminate. }
  split; [exact minute_clock_monotone|]. split; [exact D|].
  split; [reflexivity|].
  exact (proj2 (@markSeen_leaves_no_stale_entry minute_clock (JStr "123")
                  seen_stale_and_fresh minute_clock_monotone D)).
Defined.

(* ===================================================================== *)
(** ** The hardened handler: which header decides *)
(* ===================================================================== *)

Lemma assertAuthorized_header env req :
  present (INGEST_SECRET_ env) = true ->
  let h := if present (X_HillPulse_Key req)
           then X_HillPulse_Key req else Authorization req in
  Hardened.assertAuthorized env req = true <->
  (h = Some (Hardened.INGEST_SECRET env)
   \/ h = Some ("Bearer " ++ Hardened.INGEST_SECRET env)%string).
Proof.
  intros P. cbv zeta. unfold Hardened.assertAuthorized.
  destruct (present_some _ P) as (c & r & E).
  assert (S : Hardened.INGEST_SECRET env = String c r)
    by (unfold Hardened.INGEST_SECRET, or_else; now rewrite P, E).
  rewrite S. simpl present. simpl negb. cbv iota.
  set (h := if present (X_HillPulse_Key req)
            then X_HillPulse_Key req else Authorization req).
  rewrite orb_true_iff, !String.eqb_eq.
  unfold or_else. destruct (present h) eqn:Ph.
  - destruct (present_some _ Ph) as (c1 & r1 & Eh). rewrite Eh.
    split; intros [H|H]; [left|right|left|right]; congruence.
  - split.
    + intros [H|H]; discriminate.
    + intros [H|H]; rewrite H in Ph; discriminate.
Qed.

(** X14.  With a shared secret configured, the first non-empty of the two
    headers decides alone.  A request whose [X-HillPulse-Key] is the secret
    (or [Bearer ] and the secret) is authorized whatever its
    [Authorization] header; a request whose [X-HillPulse-Key] is non-empty
    and wrong is answered 401 even when its [Authorization] header is
    right; a request with no or an empty [X-HillPulse-Key] is authorized
    exactly when its [Authorization] header is the secret or [Bearer ] and
    the secret. *)
Theorem first_header_decides_authorization :
  forall (env : ProcessEnv) (R : Remote) (req : Request) (s : State),
    present (INGEST_SECRET_ env) = true ->
    let secret := Hardened.INGEST_SECRET env in
    let bearer := ("Bearer " ++ Hardened.INGEST_SECRET env)%string in
    ((X_HillPulse_Key req = Some secret \/ X_HillPulse_Key req = Some bearer) ->
     Hardened.assertAuthorized env req = true)
    /\ (present (X_HillPulse_Key req) = true ->
        X_HillPulse_Key req <> Some secret ->
        X_HillPulse_Key req <> Some bearer ->
        Hardened.ingest env R req s = (Returned (failure 401 "Unauthorized"), s))
    /\ (present (X_HillPulse_Key req) = false ->
        (Hardened.assertAuthorized env req = true <->
         (Authorization req = Some secret \/ Authorization req = Some bearer))).
Proof.
  intros env R req s P. cbv zeta.
  pose proof (assertAuthorized_header env req P) as H. cbv zeta in H.
  destruct (present_some _ P) as (c & r & E).
  assert (S : Hardened.INGEST_SECRET env = String c r)
    by (unfold Hardened.INGEST_SECRET, or_else; now rewrite P, E).
  split; [|split].
  - intros X. apply H.
    replace (present (X_HillPulse_Key req)) with true; [exact X|].
    destruct X as [X|X]; rewrite X, S; reflexivity.
  - intros PX N1 N2. rewrite PX in H.
    rewrite Hardened_ingest_steps.
    destruct (Hardened.assertAuthorized env req); [|reflexivity].
    destruct (proj1 H eq_refl); contradiction.
  - intros PX. rewrite PX in H. exact H.
Qed.

Lemma first_header_decides_authorization_witness :
  let req := {| X_HillPulse_Key := Some "guess"%string;
                Authorization := Some "Bearer s3cret"%string;
                body := Some {| data := Obj tweet_123; tweet := Prim JUndefined |} |} in
  present (INGEST_SECRET_ env_secret) = true
  /\ present (X_HillPulse_Key req) = true
  /\ Authorization req = Some ("Bearer " ++ Hardened.INGEST_SECRET env_secret)%string
  /\ Hardened.ingest env_secret remote_ok req initial_state =
     (Returned (failure 401 "Unauthorized"), initial_state).
Proof.
  cbv zeta. split; [reflexivity|]. split; [reflexivity|]. split; [reflexivity|].
  apply (proj1 (proj2 (@first_header_decides_authorization env_secret remote_ok
           {| X_HillPulse_Key := Some "guess"%string;
              Authorization := Some "Bearer s3cret"%string;
              body := Some {| data := Obj tweet_123; tweet := Prim JUndefined |} |}
           initial_state eq_refl))); [reflexivity|discriminate..].
Defined.

(* ===================================================================== *)
(** ** The regular expressions of the text resolver *)
(* ===================================================================== *)

Lemma of_to_string l : Str.of_string (Str.to_string l) = l.
Proof. apply list_ascii_of_string_of_list_ascii. Qed.

Lemma to_of_string s : Str.to_string (Str.of_string s) = s.
Proof. apply string_of_list_ascii_of_string. Qed.

Lemma is_char_eq a b : Str.is_char a b = true <-> a = b.
Proof. apply Ascii.eqb_eq. Qed.

Lemma replace_chars_cons_none re by_ c r :
  re (c :: r) = None ->
  Str.replace_chars re by_ (c :: r) = c :: Str.replace_chars re by_ r.
Proof. intros H. simp replace_chars. now rewrite H. Qed.

Lemma replace_chars_cons_some re by_ c r n :
  re (c :: r) = Some (S n) ->
  Str.replace_chars re by_ (c :: r) = by_ ++ Str.replace_chars re by_ (skipn n r).
Proof. intros H. simp replace_chars. now rewrite H. Qed.

(** A pattern that matches at none of the characters of the input leaves
    the input as it is. *)
Lemma replace_chars_no_match re by_ l :
  (forall c r, In c l -> re (c :: r) = None) ->
  Str.replace_chars re by_ l = l.
Proof.
  induction l as [|c r IH]; intros H.
  - now simp replace_chars.
  - rewrite replace_chars_cons_none by (apply H; now left).
    f_equal. apply IH. intros c' r' I. apply H. now right.
Qed.

Lemma tag_needs_lt c r : c <> "<"%char -> Str.tag (c :: r) = None.
Proof.
  intros N. unfold Str.tag.
  destruct c as [[] [] [] [] [] [] [] []]; try reflexivity. now destruct N.
Qed.

Lemma literal_needs_head p c0 p' c r :
  Str.of_string p = c0 :: p' -> c <> c0 -> Str.literal p (c :: r) = None.
Proof.
  intros E N. unfold Str.literal. rewrite E. simpl.
  replace (Str.is_char c0 c) with false; [reflexivity|].
  symmetry. apply not_true_iff_false. rewrite is_char_eq. congruence.
Qed.

Lemma replace_literal_without_head p c0 p' by_ s :
  Str.of_string p = c0 :: p' ->
  ~ In c0 (Str.of_string s) ->
  Str.replace (Str.literal p) by_ s = s.
Proof.
  intros E N. unfold Str.replace.
  rewrite replace_chars_no_match; [apply to_of_string|].
  intros c r I. apply (literal_needs_head p r E). intros ->. contradiction.
Qed.

(** With nothing put in their place, matches are only taken away: every
    character of the result is one of the input. *)
Lemma replace_chars_removes re n : forall l c,
  (List.length l <= n)%nat ->
  In c (Str.replace_chars re [] l) -> In c l.
Proof.
  induction n as [|n IH]; intros l c L I.
  - destruct l; [now simp replace_chars in I|simpl in L; lia].
  - destruct l as [|c0 r]; [now simp replace_chars in I|].
    simpl in L. destruct (re (c0 :: r)) as [[|m]|] eqn:E.
    + simp replace_chars in I. rewrite E in I. simpl in I.
      destruct I as [<-|I]; [now left|right; apply IH; auto; lia].
    + rewrite (@replace_chars_cons_some re [] c0 r m E) in I. simpl in I.
      right. apply IH in I.
      * clear - I. revert r I. induction m; intros r I; [exact I|].
        destruct r; [destruct I|]. right. now apply IHm.
      * pose proof (length_skipn m r). lia.
    + rewrite (@replace_chars_cons_none re [] c0 r E) in I.
      destruct I as [<-|I]; [now left|right; apply IH; auto; lia].
Qed.

(** X15.  The decoding does not alter plain text: a fragment without [&]
    loses its tags and nothing else, and a fragment with neither [<] nor
    [&] is returned as it is. *)
Theorem decode_fragment_keeps_plain_text :
  forall fragment : string,
    ~ In "&"%char (Str.of_string fragment) ->
    decode_fragment fragment = Str.replace Str.tag EmptyString fragment
    /\ (~ In "<"%char (Str.of_string fragment) -> decode_fragment fragment = fragment).
Proof.
  intros fragment NA.
  assert (Dec : forall s, ~ In "&"%char (Str.of_string s) ->
            Str.replace (Str.literal "&#39;") "'"
              (Str.replace (Str.literal "&quot;") (String (ascii_of_nat 34) EmptyString)
                 (Str.replace (Str.literal "&gt;") ">"
                    (Str.replace (Str.literal "&lt;") "<"
                       (Str.replace (Str.literal "&amp;") "&" s)))) = s).
  { intros s N.
    rewrite (replace_literal_without_head "&amp;" "&" s eq_refl N).
    rewrite (replace_literal_without_head "&lt;" "<" s eq_refl N).
    rewrite (replace_literal_without_head "&gt;" ">" s eq_refl N).
    rewrite (replace_literal_without_head "&quot;" _ s eq_refl N).
    apply (replace_literal_without_head "&#39;" "'" s eq_refl N). }
  assert (Tags : decode_fragment fragment = Str.replace Str.tag EmptyString fragment).
  { unfold decode_fragment. cbv zeta. apply Dec.
    unfold Str.replace. rewrite of_to_string. intros I. apply NA.
    eapply replace_chars_removes; [apply Nat.le_refl|exact I]. }
  split; [exact Tags|].
  intros NL. rewrite Tags. unfold Str.replace.
  rewrite replace_chars_no_match; [apply to_of_string|].
  intros c r I. apply tag_needs_lt. intros ->. contradiction.
Qed.

Lemma decode_fragment_keeps_plain_text_witness :
  ~ In "&"%char (Str.of_string "We <b>must</b> pass the CR.")
  /\ decode_fragment "We <b>must</b> pass the CR." = "We must pass the CR."%string.
Proof.
  assert (N : ~ In "&"%char (Str.of_string "We <b>must</b> pass the CR."))
    by (simpl; intuition discriminate).
  split; [exact N|].
  exact (proj1 (decode_fragment_keeps_plain_text "We <b>must</b> pass the CR." N)).
Defined.

Lemma not_gt_run_split r :
  r = Str.not_gt_run r ++ skipn (List.length (Str.not_gt_run r)) r
  /\ ~ In ">"%char (Str.not_gt_run r)
  /\ (skipn (List.length (Str.not_gt_run r)) r = []
      \/ exists r', skipn (List.length (Str.not_gt_run r)) r = ">"%char :: r').
Proof.
  induction r as [|c r (E & N & T)]; simpl.
  - repeat split; auto.
  - destruct (Str.is_char c ">") eqn:C; simpl.
    + apply is_char_eq in C. subst c. repeat split; eauto.
    + repeat split.
      * now f_equal.
      * intros [->|I]; [|contradiction].
        now rewrite (proj2 (is_char_eq ">" ">") eq_refl) in C.
      * exact T.
Qed.

Lemma not_gt_run_all r : ~ In ">"%char r -> Str.not_gt_run r = r.
Proof.
  induction r as [|c r IH]; simpl; intros N; [reflexivity|].
  destruct (Str.is_char c ">") eqn:C.
  - apply is_char_eq in C. subst c. tauto.
  - f_equal. apply IH. tauto.
Qed.

Lemma tag_at_lt r :
  Str.tag ("<"%char :: r) =
  match Str.not_gt_run r, skipn (List.length (Str.not_gt_run r)) r with
  | _ :: _, ">"%char :: _ => Some (2 + List.length (Str.not_gt_run r))%nat
  | _, _ => None
  end.
Proof.
  unfold Str.tag. cbv beta iota zeta.
  destruct (Str.not_gt_run r); reflexivity.
Qed.

(** A tag needs a [>] after its [<]. *)
Lemma tag_needs_gt c r : ~ In ">"%char r -> Str.tag (c :: r) = None.
Proof.
  intros N. destruct (Ascii.eqb c "<") eqn:C.
  - apply Ascii.eqb_eq in C. subst c. rewrite tag_at_lt.
    rewrite (not_gt_run_all r N), skipn_all. now destruct r.
  - apply tag_needs_lt. intros ->. now rewrite Ascii.eqb_refl in C.
Qed.

Lemma strip_without_gt l :
  ~ In ">"%char l -> Str.replace_chars Str.tag [] l = l.
Proof.
  induction l as [|c r IH]; intros N; [now simp replace_chars|].
  rewrite replace_chars_cons_none by (apply tag_needs_gt; simpl in N; tauto).
  f_equal. apply IH. simpl in N. tauto.
Qed.

Lemma tag_positive l m : Str.tag l = Some m -> exists k, m = S (S k).
Proof.
  destruct l as [|c r]; [discriminate|].
  destruct (Ascii.eqb c "<") eqn:C.
  - apply Ascii.eqb_eq in C. subst c. rewrite tag_at_lt.
    destruct (Str.not_gt_run r); [discriminate|].
    destruct (skipn _ r) as [|d l]; [discriminate|].
    destruct (Ascii.eqb d ">") eqn:G.
    + apply Ascii.eqb_eq in G. subst d. intros H. inversion H. simpl. eauto.
    + destruct d as [[] [] [] [] [] [] [] []]; discriminate.
  - rewrite tag_needs_lt; [discriminate|].
    intros ->. now rewrite Ascii.eqb_refl in C.
Qed.

Lemma strip_length n : forall l,
  (List.length l <= n)%nat ->
  (List.length (Str.replace_chars Str.tag [] l) <= List.length l)%nat.
Proof.
  induction n as [|n IH]; intros l L.
  - destruct l; [now simp replace_chars|simpl in L; lia].
  - destruct l as [|c r]; [now simp replace_chars|]. simpl in L.
    destruct (Str.tag (c :: r)) as [m|] eqn:E.
    + destruct (tag_positive _ E) as (k & ->).
      rewrite (@replace_chars_cons_some Str.tag [] c r (S k) E). cbn [app].
      pose proof (length_skipn (S k) r) as Ls.
      assert (H : (List.length (skipn (S k) r) <= n)%nat) by lia.
      apply IH in H. change (List.length (c :: r)) with (S (List.length r)). lia.
    + rewrite (@replace_chars_cons_none Str.tag [] c r E).
      assert (H : (List.length r <= n)%nat) by lia. apply IH in H.
      change (S (List.length (Str.replace_chars Str.tag [] r)) <= S (List.length r))%nat.
      lia.
Qed.

Lemma tag_none_after_strip c r :
  Str.tag (c :: r) = None ->
  Str.tag (c :: Str.replace_chars Str.tag [] r) = None.
Proof.
  intros H. destruct (Ascii.eqb c "<") eqn:C.
  2:{ apply tag_needs_lt. intros ->. now rewrite Ascii.eqb_refl in C. }
  apply Ascii.eqb_eq in C. subst c.
  destruct (not_gt_run_split r) as (E & N & [T|(r' & T)]).
  - rewrite T, app_nil_r in E. rewrite <- E in N.
    now rewrite (strip_without_gt r N).
  - rewrite tag_at_lt, T in H.
    destruct (Str.not_gt_run r) as [|a run] eqn:Run; [|discriminate].
    simpl in T. rewrite T.
    rewrite replace_chars_cons_none by (apply tag_needs_lt; discriminate).
    rewrite tag_at_lt. reflexivity.
Qed.

Lemma strip_idempotent n : forall l,
  (List.length l <= n)%nat ->
  Str.replace_chars Str.tag [] (Str.replace_chars Str.tag [] l)
  = Str.replace_chars Str.tag [] l.
Proof.
  induction n as [|n IH]; intros l L.
  - destruct l; [now simp replace_chars|simpl in L; lia].
  - destruct l as [|c r]; [now simp replace_chars|]. simpl in L.
    destruct (Str.tag (c :: r)) as [m|] eqn:E.
    + destruct (tag_positive _ E) as (k & ->).
      rewrite (@replace_chars_cons_some Str.tag [] c r (S k) E). cbn [app].
      apply IH. pose proof (length_skipn (S k) r). lia.
    + rewrite (@replace_chars_cons_none Str.tag [] c r E).
      rewrite replace_chars_cons_none by now apply tag_none_after_strip.
      f_equal. apply IH. lia.
Qed.

(** A text that stripping leaves as it is has no tag at any position. *)
Lemma unchanged_by_strip_has_no_tag : forall pre post,
  Str.replace_chars Str.tag [] (pre ++ post) = pre ++ post ->
  Str.tag post = None.
Proof.
  induction pre as [|c pre IH]; intros post H.
  - simpl in H. destruct post as [|c r]; [reflexivity|].
    destruct (Str.tag (c :: r)) as [m|] eqn:E; [|reflexivity].
    destruct (tag_positive _ E) as (k & ->).
    rewrite (@replace_chars_cons_some Str.tag [] c r (S k) E) in H. cbn [app] in H.
    pose proof (@strip_length _ (skipn (S k) r) (Nat.le_refl _)) as Ls.
    rewrite H in Ls. pose proof (length_skipn (S k) r).
    change (List.length (c :: r)) with (S (List.length r)) in Ls. lia.
  - simpl in H.
    destruct (Str.tag (c :: pre ++ post)) as [m|] eqn:E.
    + destruct (tag_positive _ E) as (k & ->).
      rewrite (@replace_chars_cons_some Str.tag [] c (pre ++ post) (S k) E) in H.
      cbn [app] in H.
      pose proof (@strip_length _ (skipn (S k) (pre ++ post)) (Nat.le_refl _)) as Ls.
      rewrite H in Ls. pose proof (length_skipn (S k) (pre ++ post)).
      change (List.length (c :: pre ++ post))
        with (S (List.length (pre ++ post))) in Ls. lia.
    + rewrite (@replace_chars_cons_none Str.tag [] c (pre ++ post) E) in H.
      apply IH. injection H as H. exact H.
Qed.

(** X16.  Tag stripping is complete: in the text that
    [.replace(/<[^>]+>/g, '')] returns, the pattern matches at no position,
    so stripping the result again changes nothing. *)
Theorem tag_stripping_leaves_no_tag :
  forall s : string,
    let stripped := Str.replace Str.tag EmptyString s in
    Str.replace Str.tag EmptyString stripped = stripped
    /\ forall pre post, Str.of_string stripped = pre ++ post -> Str.tag post = None.
Proof.
  intros s. cbv zeta. unfold Str.replace.
  assert (I : Str.replace_chars Str.tag []
                (Str.replace_chars Str.tag [] (Str.of_string s))
              = Str.replace_chars Str.tag [] (Str.of_string s))
    by (eapply strip_idempotent; apply Nat.le_refl).
  change (Str.of_string EmptyString) with (@nil ascii).
  rewrite of_to_string. split.
  - now rewrite I.
  - intros pre post E. apply (unchanged_by_strip_has_no_tag pre post).
    rewrite <- E. exact I.
Qed.

Lemma starts_with_app p : forall l,
  Str.starts_with p l = true -> exists rest, l = p ++ rest.
Proof.
  induction p as [|a p IH]; intros l H; simpl in *.
  - now exists l.
  - destruct l as [|b l]; [discriminate|].
    apply andb_prop in H as [A H]. apply is_char_eq in A. subst b.
    destruct (IH l H) as (rest & ->). now exists rest.
Qed.

Lemma lazy_until_close_sound : forall l g,
  Str.lazy_until_close l = Some g ->
  (exists rest, l = g ++ Str.of_string "</p>" ++ rest)
  /\ forall c, In c g -> Str.is_line_terminator c = false.
Proof.
  induction l as [|c r IH]; intros g H.
  - simpl in H. discriminate.
  - cbn [Str.lazy_until_close] in H.
    destruct (Str.starts_with (Str.of_string "</p>") (c :: r)) eqn:S.
    + inversion H; subst. split; [|intros c' []].
      destruct (starts_with_app _ _ S) as (rest & E). now exists rest.
    + destruct (Str.is_line_terminator c) eqn:LT; [discriminate|].
      destruct (Str.lazy_until_close r) as [g'|] eqn:G; [|discriminate].
      simpl in H. inversion H; subst.
      destruct (IH g' eq_refl) as ((rest & E) & N). split.
      * exists rest. simpl. now f_equal.
      * intros c' [<-|I]; auto.
Qed.

Lemma paragraph_here_sound l g :
  Str.paragraph_here l = Some g ->
  exists attrs rest,
    l = Str.of_string "<p" ++ attrs ++ ">"%char :: g ++ Str.of_string "</p>" ++ rest
    /\ ~ In ">"%char attrs
    /\ forall c, In c g -> Str.is_line_terminator c = false.
Proof.
  destruct l as [|a [|b r]]; try (destruct a as [[] [] [] [] [] [] [] []]; discriminate);
    [discriminate|].
  destruct (Ascii.eqb a "<") eqn:A.
  2:{ destruct a as [[] [] [] [] [] [] [] []]; discriminate. }
  destruct (Ascii.eqb b "p") eqn:B.
  2:{ apply Ascii.eqb_eq in A. subst a.
      destruct b as [[] [] [] [] [] [] [] []]; discriminate. }
  apply Ascii.eqb_eq in A, B. subst a b.
  change (Str.paragraph_here ("<"%char :: "p"%char :: r))
    with (match skipn (List.length (Str.not_gt_run r)) r with
          | ">"%char :: body => Str.lazy_until_close body
          | _ => None
          end).
  destruct (not_gt_run_split r) as (E & N & [T|(body & T)]); rewrite T.
  - discriminate.
  - intros H. destruct (lazy_until_close_sound _ H) as ((rest & Eb) & NL).
    exists (Str.not_gt_run r), rest. split; [|split; auto].
    rewrite E at 1. rewrite T, Eb. reflexivity.
Qed.

Lemma paragraph_chars_sound : forall l g,
  Str.paragraph_chars l = Some g ->
  exists pre attrs rest,
    l = pre ++ Str.of_string "<p" ++ attrs ++ ">"%char :: g
            ++ Str.of_string "</p>" ++ rest
    /\ ~ In ">"%char attrs
    /\ forall c, In c g -> Str.is_line_terminator c = false.
Proof.
  induction l as [|c r IH]; intros g H.
  - simpl in H. discriminate.
  - cbn [Str.paragraph_chars] in H.
    destruct (Str.paragraph_here (c :: r)) as [g'|] eqn:P.
    + inversion H; subst.
      destruct (paragraph_here_sound _ P) as (attrs & rest & E & N & NL).
      exists [], attrs, rest. auto.
    + destruct (IH g H) as (pre & attrs & rest & E & N & NL).
      exists (c :: pre), attrs, rest. split; [|auto].
      simpl. now f_equal.
Qed.

(** X17.  What the paragraph pattern extracts.  When
    [html.match(/<p[^>]*>(.*?)<\/p>/)] succeeds, the fragment it captures is
    a piece of the markup that stands right after an opening [<p ...>] tag
    and right before a [</p>], and it holds no line terminator: a paragraph
    that spans several lines is not extracted. *)
Theorem match_paragraph_between_tags :
  forall (html fragment : string),
    Str.match_paragraph html = Some fragment ->
    exists pre attrs post,
      Str.of_string html =
        pre ++ Str.of_string "<p" ++ attrs ++ Str.of_string ">"
            ++ Str.of_string fragment ++ Str.of_string "</p>" ++ post
      /\ ~ In ">"%char attrs
      /\ forall c, In c (Str.of_string fragment) -> Str.is_line_terminator c = false.
Proof.
  intros html fragment. unfold Str.match_paragraph.
  destruct (Str.paragraph_chars (Str.of_string html)) as [g|] eqn:P; [|discriminate].
  simpl. intros H. inversion H; subst. rewrite of_to_string.
  destruct (paragraph_chars_sound _ P) as (pre & attrs & rest & E & N & NL).
  exists pre, attrs, rest. auto.
Qed.

Lemma match_paragraph_between_tags_witness :
  Str.match_paragraph escaped_markup
    = Some "if a &amp;lt; b then <a href=x>pic</a>"%string
  /\ exists pre attrs post,
       Str.of_string escaped_markup =
         pre ++ Str.of_string "<p" ++ attrs ++ Str.of_string ">"
             ++ Str.of_string "if a &amp;lt; b then <a href=x>pic</a>"
             ++ Str.of_string "</p>" ++ post
       /\ ~ In ">"%char attrs
       /\ forall c, In c (Str.of_string "if a &amp;lt; b then <a href=x>pic</a>") ->
                    Str.is_line_terminator c = false.
Proof.
  split; [reflexivity|].
  exact (match_paragraph_between_tags escaped_markup eq_refl).
Defined.

(* ===================================================================== *)
(** ** Which key the payload is read from *)
(* ===================================================================== *)

(** X18.  When the body has both keys, the baseline handler reads the
    payload under [data] whenever that value is truthy and ignores [tweet];
    it reads [tweet] only when [data] is missing or falsy ([null], [0], the
    empty string).  The hardened handler never reads [tweet]. *)
Theorem data_key_takes_precedence :
  forall (clock : nat -> Z) (env : ProcessEnv) (R : Remote) (req : Request)
         (payload other : Field) (s : State),
    (truthy_field payload = true ->
     Baseline.ingest clock env R
       (with_body req {| data := payload; tweet := other |}) s =
     Baseline.ingest clock env R
       (with_body req {| data := payload; tweet := Prim JUndefined |}) s)
    /\ (truthy_field payload = false ->
        Baseline.ingest clock env R
          (with_body req {| data := payload; tweet := other |}) s =
        Baseline.ingest clock env R
          (with_body req {| data := Prim JUndefined; tweet := other |}) s)
    /\ Hardened.ingest env R (with_body req {| data := payload; tweet := other |}) s =
       Hardened.ingest env R
         (with_body req {| data := payload; tweet := Prim JUndefined |}) s.
Proof.
  intros clock env R req payload other s. split; [|split].
  - intros T. rewrite !ingest_steps.
    unfold Baseline_text, Baseline_resolution_calls, needs_resolver,
      Baseline_tweetId, Baseline_author, Baseline_url, Baseline_tweet, field_or.
    simpl. rewrite T. reflexivity.
  - intros T. rewrite !ingest_steps.
    unfold Baseline_text, Baseline_resolution_calls, needs_resolver,
      Baseline_tweetId, Baseline_author, Baseline_url, Baseline_tweet, field_or.
    simpl. rewrite T. reflexivity.
  - reflexivity.
Qed.

Lemma data_key_takes_precedence_witness :
  truthy_field (Obj tweet_123) = true
  /\ Baseline.ingest minute_clock env_configured remote_ok
       (with_body (post (Prim JUndefined) (Prim JUndefined))
          {| data := Obj tweet_123; tweet := Obj (anonymous (JStr "Jeffries opposes.")) |})
       initial_state =
     Baseline.ingest minute_clock env_configured remote_ok
       (with_body (post (Prim JUndefined) (Prim JUndefined))
          {| data := Obj tweet_123; tweet := Prim JUndefined |})
       initial_state.
Proof.
  split; [reflexivity|].
  exact (proj1 (data_key_takes_precedence minute_clock env_configured remote_ok
                  (post (Prim JUndefined) (Prim JUndefined)) (Obj tweet_123)
                  (Obj (anonymous (JStr "Jeffries opposes."))) initial_state)
           eq_refl).
Defined.
